(** * awssign: AWS Signature Version 4 request signing (fsaravia/aws_signer)

    A shallow embedding of [awssign.go] and of the parts of the Go standard
    library it calls ([crypto/sha256], [crypto/hmac], [encoding/hex],
    [strings], [sort], [time], [net/url], [net/http]), followed by the
    properties of the signing pipeline.

    Go strings are byte sequences: they are [string] here (one [ascii] per
    byte), and a [[]byte] is a [list byte].  Maps ([http.Header],
    [url.Values], the local [lowerCaseHeaders]) are [gmap string _].  Machine
    integers are [Z] with the wrap-around written out. *)

From Stdlib Require Import ZArith Lia Ascii Strings.Byte List Permutation.
From Stdlib Require String.
From stdpp Require Import gmap strings list sorting.
Import ListNotations.

(** The line feed, written "\n" in the Go source. *)
Definition LF : string := String (ascii_of_nat 10) EmptyString.

(** [[]byte(s)] and [string(b)]. *)
Definition bytes_of_string (s : string) : list byte := String.list_byte_of_string s.
Definition string_of_bytes (b : list byte) : string := String.string_of_list_byte b.

Definition byte_to_Z (b : byte) : Z := Z.of_N (Byte.to_N b).
Definition byte_of_Z (z : Z) : byte := byte_of_ascii (ascii_of_N (Z.to_N (z mod 256))).

(** ** crypto/sha256 *)
Module sha256.
Local Open Scope Z_scope.

Definition chunk : nat := 64.
Definition Size : nat := 32.
Definition BlockSize : nat := 64.

(** Arithmetic on [uint32]. *)
Definition u32 (x : Z) : Z := x mod 2 ^ 32.
Definition add32 (x y : Z) : Z := u32 (x + y).
Definition not32 (x : Z) : Z := Z.lxor x 0xFFFFFFFF.
(** [bits.RotateLeft32(x, -k)]: a rotation to the right by [k] bits. *)
Definition rotr (k x : Z) : Z := Z.lor (Z.shiftr x k) (u32 (Z.shiftl x (32 - k))).

Definition _K : list Z :=
  [ 0x428A2F98; 0x71374491; 0xB5C0FBCF; 0xE9B5DBA5;
    0x3956C25B; 0x59F111F1; 0x923F82A4; 0xAB1C5ED5;
    0xD807AA98; 0x12835B01; 0x243185BE; 0x550C7DC3;
    0x72BE5D74; 0x80DEB1FE; 0x9BDC06A7; 0xC19BF174;
    0xE49B69C1; 0xEFBE4786; 0x0FC19DC6; 0x240CA1CC;
    0x2DE92C6F; 0x4A7484AA; 0x5CB0A9DC; 0x76F988DA;
    0x983E5152; 0xA831C66D; 0xB00327C8; 0xBF597FC7;
    0xC6E00BF3; 0xD5A79147; 0x06CA6351; 0x14292967;
    0x27B70A85; 0x2E1B2138; 0x4D2C6DFC; 0x53380D13;
    0x650A7354; 0x766A0ABB; 0x81C2C92E; 0x92722C85;
    0xA2BFE8A1; 0xA81A664B; 0xC24B8B70; 0xC76C51A3;
    0xD192E819; 0xD6990624; 0xF40E3585; 0x106AA070;
    0x19A4C116; 0x1E376C08; 0x2748774C; 0x34B0BCB5;
    0x391C0CB3; 0x4ED8AA4A; 0x5B9CCA4F; 0x682E6FF3;
    0x748F82EE; 0x78A5636F; 0x84C87814; 0x8CC70208;
    0x90BEFFFA; 0xA4506CEB; 0xBEF9A3F7; 0xC67178F2 ].

(** The eight chaining words [h[0..7]] of a [digest]. *)
Record state := State
  { h0 : Z; h1 : Z; h2 : Z; h3 : Z; h4 : Z; h5 : Z; h6 : Z; h7 : Z }.

Definition init : state :=
  State 0x6A09E667 0xBB67AE85 0x3C6EF372 0xA54FF53A
        0x510E527F 0x9B05688C 0x1F83D9AB 0x5BE0CD19.

(** [w[i] = uint32(p[j])<<24 | uint32(p[j+1])<<16 | uint32(p[j+2])<<8 | uint32(p[j+3])]
    for the sixteen words of one chunk. *)
Fixpoint be_words (p : list byte) : list Z :=
  match p with
  | a :: b :: c :: d :: rest =>
      Z.lor (Z.lor (Z.lor (Z.shiftl (byte_to_Z a) 24) (Z.shiftl (byte_to_Z b) 16))
                   (Z.shiftl (byte_to_Z c) 8)) (byte_to_Z d) :: be_words rest
  | _ => []
  end.

Definition wnth (w : list Z) (i : nat) : Z := nth i w 0.

(** The loop [for i := 16; i < 64; i++] that extends the message schedule;
    [w] holds [w[0..i-1]]. *)
Fixpoint schedule (n : nat) (w : list Z) : list Z :=
  match n with
  | O => w
  | S n' =>
      let i := length w in
      let v1 := wnth w (i - 2) in
      let t1 := Z.lxor (Z.lxor (rotr 17 v1) (rotr 19 v1)) (Z.shiftr v1 10) in
      let v2 := wnth w (i - 15) in
      let t2 := Z.lxor (Z.lxor (rotr 7 v2) (rotr 18 v2)) (Z.shiftr v2 3) in
      schedule n' (w ++ [add32 (add32 (add32 t1 (wnth w (i - 7))) t2) (wnth w (i - 16))])
  end.

(** One iteration of the loop [for i := 0; i < 64; i++] over the working
    variables [a..h]. *)
Definition round (s : state) (kw : Z * Z) : state :=
  let '(State a b c d e f g h) := s in
  let t1 := add32 (add32 (add32 (add32 h
              (Z.lxor (Z.lxor (rotr 6 e) (rotr 11 e)) (rotr 25 e)))
              (Z.lxor (Z.land e f) (Z.land (not32 e) g))) (fst kw)) (snd kw) in
  let t2 := add32 (Z.lxor (Z.lxor (rotr 2 a) (rotr 13 a)) (rotr 22 a))
                  (Z.lxor (Z.lxor (Z.land a b) (Z.land a c)) (Z.land b c)) in
  State (add32 t1 t2) a b c (add32 d t1) e f g.

(** The body of [blockGeneric]'s outer loop for one 64-byte chunk. *)
Definition block1 (s : state) (p : list byte) : state :=
  let w := schedule 48 (be_words p) in
  let r := fold_left round (combine _K w) s in
  State (add32 (h0 s) (h0 r)) (add32 (h1 s) (h1 r)) (add32 (h2 s) (h2 r))
        (add32 (h3 s) (h3 r)) (add32 (h4 s) (h4 r)) (add32 (h5 s) (h5 r))
        (add32 (h6 s) (h6 r)) (add32 (h7 s) (h7 r)).

(** [blockGeneric]: [for len(p) >= chunk { ...; p = p[chunk:] }]. *)
Fixpoint block (fuel : nat) (s : state) (p : list byte) : state :=
  match fuel with
  | O => s
  | S fuel' =>
      if (chunk <=? length p)%nat
      then block fuel' (block1 s (firstn chunk p)) (skipn chunk p)
      else s
  end.

(** [byteorder.BEPutUint64] and [byteorder.BEPutUint32]. *)
Definition BEPutUint64 (x : Z) : list byte :=
  map (fun k => byte_of_Z (Z.shiftr x k)) [56; 48; 40; 32; 24; 16; 8; 0].
Definition BEPutUint32 (x : Z) : list byte :=
  map (fun k => byte_of_Z (Z.shiftr x k)) [24; 16; 8; 0].

(** The padding [checkSum] writes after [len] bytes of data: 0x80, zeros up to
    56 bytes mod 64, and the length in bits as a [uint64]. *)
Definition padding (len : Z) : list byte :=
  let t := if len mod 64 <? 56 then 56 - len mod 64 else 64 + 56 - len mod 64 in
  byte_of_Z 0x80 :: replicate (Z.to_nat (t - 1)) (byte_of_Z 0)
    ++ BEPutUint64 (Z.shiftl len 3 mod 2 ^ 64).

Definition digest_bytes (s : state) : list byte :=
  BEPutUint32 (h0 s) ++ BEPutUint32 (h1 s) ++ BEPutUint32 (h2 s) ++ BEPutUint32 (h3 s)
  ++ BEPutUint32 (h4 s) ++ BEPutUint32 (h5 s) ++ BEPutUint32 (h6 s) ++ BEPutUint32 (h7 s).

(** [sha256.Sum256(data)]; also what [Sum(nil)] returns for a [sha256.New()]
    hash to which [data] has been written. *)
Definition Sum256 (data : list byte) : list byte :=
  let p := data ++ padding (Z.of_nat (length data)) in
  digest_bytes (block (length p) init p).

End sha256.

(** ** encoding/hex *)
Module hex.

Definition hextable : list ascii := String.list_ascii_of_string "0123456789abcdef".

Definition digit (n : N) : ascii := nth (N.to_nat n) hextable "0"%char.

(** [hex.EncodeToString]; [fmt.Sprintf("%x", b)] gives the same string for a
    byte array. *)
Fixpoint EncodeToString (src : list byte) : string :=
  match src with
  | [] => EmptyString
  | v :: rest =>
      String (digit (N.shiftr (Byte.to_N v) 4))
        (String (digit (N.land (Byte.to_N v) 15)) (EncodeToString rest))
  end.

End hex.

(** ** crypto/hmac, instantiated with [sha256.New] *)
Module hmac.

(** The state of an [hmac]: the two pads, and the bytes written so far to the
    inner hash (a [sha256] digest is determined by the bytes written to it). *)
Record HMAC := mkHMAC { opad : list byte; ipad : list byte; inner : list byte }.

(** [copy(pad, key)] into a zeroed buffer of [blocksize] bytes, then
    [pad[i] ^= c] for every [i]. *)
Definition pad (c : Z) (key : list byte) : list byte :=
  map (fun b => byte_of_Z (Z.lxor (byte_to_Z b) c))
      (take sha256.BlockSize (key ++ replicate sha256.BlockSize (byte_of_Z 0))).

(** [hmac.New(sha256.New, key)]: a key longer than the block size is hashed
    first; the inner hash starts with [ipad] written to it. *)
Definition New (key : list byte) : HMAC :=
  let key := if (sha256.BlockSize <? length key)%nat then sha256.Sum256 key else key in
  let ipad := pad 0x36 key in
  let opad := pad 0x5c key in
  mkHMAC opad ipad ipad.

(** [mac.Write(p)] *)
Definition Write (mac : HMAC) (p : list byte) : HMAC :=
  mkHMAC (opad mac) (ipad mac) (inner mac ++ p).

(** [mac.Sum(in)]: the outer hash is reset, fed [opad] and the inner digest,
    and its digest is appended to [in]. *)
Definition Sum (mac : HMAC) (b : list byte) : list byte :=
  b ++ sha256.Sum256 (opad mac ++ sha256.Sum256 (inner mac)).

End hmac.

(** ** bytes.Buffer, as the string written so far *)
Module Buffer.
Definition Buffer := string.
Definition new : Buffer := "".
Definition WriteString (b : Buffer) (s : string) : Buffer := b +:+ s.
Definition WriteByte (b : Buffer) (c : ascii) : Buffer := b +:+ String c "".
Definition Len (b : Buffer) : nat := String.length b.
Definition String (b : Buffer) : string := b.
End Buffer.

(** Byte classes shared by the library models below. *)
Definition byte_in (lo hi c : ascii) : bool :=
  (N_of_ascii lo <=? N_of_ascii c)%N && (N_of_ascii c <=? N_of_ascii hi)%N.
Definition isLowerAZ (c : ascii) : bool := byte_in "a" "z" c.
Definition isUpperAZ (c : ascii) : bool := byte_in "A" "Z" c.
Definition isDigit09 (c : ascii) : bool := byte_in "0" "9" c.
Definition ascii_add (c : ascii) (d : N) : ascii := ascii_of_N (N_of_ascii c + d).
Definition ascii_sub (c : ascii) (d : N) : ascii := ascii_of_N (N_of_ascii c - d).

Fixpoint string_forallb (p : ascii -> bool) (s : string) : bool :=
  match s with
  | EmptyString => true
  | String c s' => p c && string_forallb p s'
  end.

Fixpoint string_map (f : ascii -> ascii) (s : string) : string :=
  match s with
  | EmptyString => EmptyString
  | String c s' => String (f c) (string_map f s')
  end.

(** [s[n:]] *)
Fixpoint string_drop (n : nat) (s : string) : string :=
  match n, s with
  | S n', String _ s' => string_drop n' s'
  | _, _ => s
  end.

(** ** strings *)
Module strings.

(** [strings.ToLower].  A string of ASCII bytes is mapped byte by byte; a
    string with a byte >= 0x80 goes through [strings.Map(unicode.ToLower, s)],
    whose Unicode case tables are not part of this development: that function
    is the parameter [unicodeLower]. *)
Definition ToLower (unicodeLower : string -> string) (s : string) : string :=
  if string_forallb (fun c => (N_of_ascii c <? 128)%N) s
  then string_map (fun c => if isUpperAZ c then ascii_add c 32 else c) s
  else unicodeLower s.

(** [strings.Join(elems, sep)] *)
Fixpoint Join (elems : list string) (sep : string) : string :=
  match elems with
  | [] => ""
  | [e] => e
  | e :: rest => e +:+ sep +:+ Join rest sep
  end.

(** [strings.Cut(s, sep)]: the text before and after the first instance of
    [sep], and whether [sep] was found. *)
Fixpoint Cut (s sep : string) : string * string * bool :=
  if String.prefix sep s then ("", string_drop (String.length sep) s, true)
  else match s with
       | EmptyString => ("", "", false)
       | String c s' => let '(before, after, found) := Cut s' sep in (String c before, after, found)
       end.

(** [strings.Contains(s, substr)] *)
Definition Contains (s substr : string) : bool := snd (Cut s substr).

(** [strings.Split(s, sep)] for a non-empty [sep] (the source passes ";"):
    the substrings between the instances of [sep], one more than there are
    instances.  [skip] counts the bytes of a matched separator still to pass,
    [cur] is the current substring, reversed. *)
Fixpoint Split_from (sep : string) (skip : nat) (cur : string) (s : string) : list string :=
  match s with
  | EmptyString => [String.rev cur]
  | String c s' =>
      match skip with
      | S k => Split_from sep k cur s'
      | O =>
          if String.prefix sep s
          then String.rev cur :: Split_from sep (String.length sep - 1) "" s'
          else Split_from sep 0 (String c cur) s'
      end
  end.
Definition Split (s sep : string) : list string := Split_from sep 0 "" s.

End strings.

(** ** sort *)
Module sort.
(** [sort.Strings(x)]: [x] in increasing byte-wise order.  Strings that
    compare equal are identical, so every sorting algorithm returns the same
    list (lemma [sort_Strings_unique] below); merge sort stands for Go's. *)
Definition Strings (x : list string) : list string := merge_sort String.le x.
End sort.

(** ** time *)
Module time.
Local Open Scope Z_scope.

(** A [time.Time] in the UTC location (the source formats [time.Now().UTC()]
    only), by the calendar fields [Format] reads through [Date] and [Clock]. *)
Record Time := Date
  { Year : Z; Month : Z; Day : Z; Hour : Z; Minute : Z; Second : Z }.

(** The pieces of a layout ([nextStdChunk]). *)
Inductive chunk :=
| stdLongYear        (* "2006" *)
| stdZeroMonth       (* "01" *)
| stdZeroDay         (* "02" *)
| stdHour            (* "15" *)
| stdZeroMinute      (* "04" *)
| stdZeroSecond      (* "05" *)
| stdISO8601ColonTZ  (* "Z07:00" *)
| literal (c : ascii).

(** The layout read from left to right, restricted to the reference pieces
    that occur in the layouts of this package ("20060102",
    "20060102T150405Z" and [RFC3339]); any other byte stands for itself. *)
Fixpoint chunks (fuel : nat) (layout : string) : list chunk :=
  match fuel with
  | O => []
  | S fuel' =>
      match layout with
      | EmptyString => []
      | String c rest =>
          if String.prefix "2006" layout then stdLongYear :: chunks fuel' (string_drop 4 layout)
          else if String.prefix "01" layout then stdZeroMonth :: chunks fuel' (string_drop 2 layout)
          else if String.prefix "02" layout then stdZeroDay :: chunks fuel' (string_drop 2 layout)
          else if String.prefix "04" layout then stdZeroMinute :: chunks fuel' (string_drop 2 layout)
          else if String.prefix "05" layout then stdZeroSecond :: chunks fuel' (string_drop 2 layout)
          else if String.prefix "15" layout then stdHour :: chunks fuel' (string_drop 2 layout)
          else if String.prefix "Z07:00" layout
               then stdISO8601ColonTZ :: chunks fuel' (string_drop 6 layout)
          else literal c :: chunks fuel' rest
      end
  end.

(** The decimal digits of [u >= 0], most significant first, before [acc]. *)
Fixpoint digits (fuel : nat) (u : Z) (acc : string) : string :=
  match fuel with
  | O => acc
  | S fuel' =>
      let acc := String (ascii_of_N (48 + Z.to_N (u mod 10))) acc in
      if u <? 10 then acc else digits fuel' (u / 10) acc
  end.
Definition decimal (u : Z) : string := digits (S (Z.to_nat (Z.log2 u))) u "".

(** [appendInt(b, x, width)]: a sign for a negative [x], then its decimal
    digits padded with zeros on the left to [width]. *)
Definition appendInt (b : string) (x : Z) (width : nat) : string :=
  let d := decimal (Z.abs x) in
  b +:+ (if x <? 0 then "-" else "")
    +:+ String.string_of_list_ascii (replicate (width - String.length d) "0"%char) +:+ d.

Definition appendChunk (t : Time) (b : string) (c : chunk) : string :=
  match c with
  | stdLongYear => appendInt b (Year t) 4
  | stdZeroMonth => appendInt b (Month t) 2
  | stdZeroDay => appendInt b (Day t) 2
  | stdHour => appendInt b (Hour t) 2
  | stdZeroMinute => appendInt b (Minute t) 2
  | stdZeroSecond => appendInt b (Second t) 2
  | stdISO8601ColonTZ => b +:+ "Z"   (* the offset of UTC is 0 *)
  | literal c => b +:+ String c ""
  end.

(** [t.Format(layout)] *)
Definition Format (t : Time) (layout : string) : string :=
  fold_left (appendChunk t) (chunks (String.length layout) layout) "".

Definition RFC3339 : string := "2006-01-02T15:04:05Z07:00".

End time.

(** ** net/url *)
Module url.

Inductive encoding := encodePath | encodeQueryComponent.

(** [shouldEscape(c, mode)] for the two modes used here. *)
Definition shouldEscape (c : ascii) (mode : encoding) : bool :=
  if isLowerAZ c || isUpperAZ c || isDigit09 c then false
  else if existsb (Ascii.eqb c) (String.list_ascii_of_string "-_.~") then false
  else if existsb (Ascii.eqb c) (String.list_ascii_of_string "$&+,/:;=?@") then
    match mode with
    | encodePath => Ascii.eqb c "?"
    | encodeQueryComponent => true
    end
  else true.

Definition upperhex : list ascii := String.list_ascii_of_string "0123456789ABCDEF".

(** [escape(s, mode)] *)
Fixpoint escape (s : string) (mode : encoding) : string :=
  match s with
  | EmptyString => EmptyString
  | String c s' =>
      if shouldEscape c mode then
        match mode with
        | encodeQueryComponent =>
            if Ascii.eqb c " " then String "+" (escape s' mode)
            else String "%" (String (nth (N.to_nat (N.shiftr (N_of_ascii c) 4)) upperhex "0"%char)
                   (String (nth (N.to_nat (N.land (N_of_ascii c) 15)) upperhex "0"%char)
                      (escape s' mode)))
        | encodePath =>
            String "%" (String (nth (N.to_nat (N.shiftr (N_of_ascii c) 4)) upperhex "0"%char)
                   (String (nth (N.to_nat (N.land (N_of_ascii c) 15)) upperhex "0"%char)
                      (escape s' mode)))
        end
      else String c (escape s' mode)
  end.

Definition ishex (c : ascii) : bool :=
  isDigit09 c || byte_in "a" "f" c || byte_in "A" "F" c.

Definition unhex (c : ascii) : N :=
  if isDigit09 c then N_of_ascii c - 48
  else if byte_in "a" "f" c then N_of_ascii c - 97 + 10
  else if byte_in "A" "F" c then N_of_ascii c - 65 + 10
  else 0.

(** [unescape(s, mode)]; [None] is an [EscapeError] (a "%" that is not
    followed by two hexadecimal digits). *)
Fixpoint unescape (s : string) (mode : encoding) : option string :=
  match s with
  | EmptyString => Some EmptyString
  | String c s' =>
      if Ascii.eqb c "%" then
        match s' with
        | String a (String b s'') =>
            if ishex a && ishex b
            then t ← unescape s'' mode; Some (String (ascii_of_N (N.lor (N.shiftl (unhex a) 4) (unhex b))) t)
            else None
        | _ => None
        end
      else if Ascii.eqb c "+" then
        t ← unescape s' mode;
        Some (String (match mode with encodeQueryComponent => " "%char | encodePath => "+"%char end) t)
      else t ← unescape s' mode; Some (String c t)
  end.

(** [validEncoded(s, mode)] *)
Definition validEncoded (s : string) (mode : encoding) : bool :=
  string_forallb (fun c =>
    if existsb (Ascii.eqb c) (String.list_ascii_of_string "!$&'()*+,;=:@[]%") then true
    else negb (shouldEscape c mode)) s.

Definition QueryEscape (s : string) : string := escape s encodeQueryComponent.
Definition QueryUnescape (s : string) : option string := unescape s encodeQueryComponent.

(** The fields of a [url.URL] the package reads. *)
Record URL := mkURL { Path : string; RawPath : string; RawQuery : string }.

(** [u.EscapedPath()] *)
Definition EscapedPath (u : URL) : string :=
  if negb (String.eqb (RawPath u) "") && validEncoded (RawPath u) encodePath
     && bool_decide (unescape (RawPath u) encodePath = Some (Path u))
  then RawPath u
  else if String.eqb (Path u) "*" then "*"
  else escape (Path u) encodePath.

(** [url.Values] *)
Abbreviation Values := (gmap string (list string)).

(** [v.Add(key, value)] *)
Definition Add (v : Values) (key value : string) : Values :=
  <[key := v !!! key ++ [value]]> v.

(** The loop of [parseQuery(m, query)] (as of Go 1.17, where ";" no longer
    separates pairs); the error it also returns is dropped by [Query].  A
    pair with a ";" in it, an empty pair, or a pair whose key or value does
    not unescape is skipped. *)
Fixpoint parseQuery (fuel : nat) (m : Values) (query : string) : Values :=
  match fuel with
  | O => m
  | S fuel' =>
      if String.eqb query "" then m
      else
        let '(key, query, _) := strings.Cut query "&" in
        if strings.Contains key ";" then parseQuery fuel' m query
        else if String.eqb key "" then parseQuery fuel' m query
        else
          let '(key, value, _) := strings.Cut key "=" in
          match QueryUnescape key with
          | None => parseQuery fuel' m query
          | Some key =>
              match QueryUnescape value with
              | None => parseQuery fuel' m query
              | Some value => parseQuery fuel' (Add m key value) query
              end
          end
  end.

(** [u.Query()]: [ParseQuery(u.RawQuery)] with the error discarded.  Every
    turn of the loop with a non-empty [query] shortens it, so its length
    bounds the number of turns. *)
Definition Query (u : URL) : Values :=
  parseQuery (S (String.length (RawQuery u))) ∅ (RawQuery u).

(** The inner loop of [Encode] over the values of one key. *)
Definition encodeValues (keyEscaped : string) (buf : Buffer.Buffer) (vs : list string)
  : Buffer.Buffer :=
  fold_left (fun buf v =>
    let buf := if (0 <? Buffer.Len buf)%nat then Buffer.WriteByte buf "&" else buf in
    let buf := Buffer.WriteString buf keyEscaped in
    let buf := Buffer.WriteByte buf "=" in
    Buffer.WriteString buf (QueryEscape v)) vs buf.

(** [v.Encode()]: the keys are collected from the map and sorted. *)
Definition Encode (v : Values) : string :=
  if bool_decide (size v = 0%nat) then ""
  else
    let keys := sort.Strings (map fst (map_to_list v)) in
    Buffer.String
      (fold_left (fun buf k => encodeValues (QueryEscape k) buf (v !!! k)) keys Buffer.new).

End url.

(** ** net/textproto *)
Module textproto.

(** [validHeaderFieldByte]: the token bytes of RFC 7230. *)
Definition validHeaderFieldByte (c : ascii) : bool :=
  isLowerAZ c || isUpperAZ c || isDigit09 c
  || existsb (Ascii.eqb c) (String.list_ascii_of_string "!#$%&'*+-.^_`|~").

(** The canonicalizing loop: upper case for the first letter and after each
    dash, lower case elsewhere. *)
Fixpoint canonicalize (upper : bool) (s : string) : string :=
  match s with
  | EmptyString => EmptyString
  | String c s' =>
      let c := if upper && isLowerAZ c then ascii_sub c 32
               else if negb upper && isUpperAZ c then ascii_add c 32
               else c in
      String c (canonicalize (Ascii.eqb c "-") s')
  end.

(** [textproto.CanonicalMIMEHeaderKey]: a key with a byte that is not a token
    byte is returned unchanged. *)
Definition CanonicalMIMEHeaderKey (s : string) : string :=
  if string_forallb validHeaderFieldByte s then canonicalize true s else s.

(** [textproto.MIMEHeader], the type under [http.Header]. *)
Abbreviation MIMEHeader := (gmap string (list string)).

(** [h.Add(key, value)]: [h[key] = append(h[key], value)] on the canonical key. *)
Definition Add (h : MIMEHeader) (key value : string) : MIMEHeader :=
  let key := CanonicalMIMEHeaderKey key in
  <[key := h !!! key ++ [value]]> h.

End textproto.

(** ** net/http *)
Module http.

(** The fields of an [http.Request] that matter to the package, for a request
    as [http.NewRequest] makes it: [URL] and [Header] are present (not nil).
    [Body] is the content still to be read from the request's body. *)
Record Request := mkRequest
  { Method : string;
    URL : url.URL;
    Header : textproto.MIMEHeader;
    Host : string;
    Body : list byte }.

Definition MethodGet : string := "GET".

End http.

(** * Package awssign *)

Definition algorithm : string := "AWS4-HMAC-SHA256".
Definition dateHeader : string := "X-Amz-Date".
Definition dateFormat : string := "20060102".
Definition dateTimeFormat : string := "20060102T150405Z".
Definition hostHeader : string := "host".
Definition terminationString : string := "aws4_request".

Record Signer := mkSigner
  { Region : string; Service : string; AccessKeyID : string; AccessKeySecret : string }.

Definition calculateSignature (signingKey : list byte) (stringToSign : string) : string :=
  let mac := hmac.New signingKey in
  let mac := hmac.Write mac (bytes_of_string stringToSign) in
  hex.EncodeToString (hmac.Sum mac []).

(** The local variables of [deriveSigningKey] when it returns. *)
Record signingKeys := mkKeys
  { kDate : list byte; kRegion : list byte; kService : list byte; kSigning : list byte }.

Definition deriveSigningKey_locals (awsKey : string) (date : time.Time) (region service : string)
  : signingKeys :=
  let kSecret := bytes_of_string ("AWS4" +:+ awsKey) in
  let mac := hmac.New kSecret in
  let mac := hmac.Write mac (bytes_of_string (time.Format date dateFormat)) in
  let kDate := hmac.Sum mac [] in
  let mac := hmac.New kDate in
  let mac := hmac.Write mac (bytes_of_string region) in
  let kRegion := hmac.Sum mac [] in
  let mac := hmac.New kRegion in
  let mac := hmac.Write mac (bytes_of_string service) in
  let kService := hmac.Sum mac [] in
  let mac := hmac.New kService in
  let mac := hmac.Write mac (bytes_of_string terminationString) in
  mkKeys kDate kRegion kService (hmac.Sum mac []).

Definition deriveSigningKey (awsKey : string) (date : time.Time) (region service : string)
  : list byte :=
  kSigning (deriveSigningKey_locals awsKey date region service).

(** [fmt.Sprintf("%s/%s/%s/%s", ...)] *)
Definition credentialScope (timestamp : time.Time) (region service : string) : string :=
  time.Format timestamp dateFormat +:+ "/" +:+ region +:+ "/" +:+ service
    +:+ "/" +:+ terminationString.

Definition stringToSign (timestamp : time.Time) (region service hashedCanonicalRequest : string)
  : string :=
  let buffer := Buffer.new in
  let buffer := Buffer.WriteString buffer algorithm in
  let buffer := Buffer.WriteString buffer LF in
  let buffer := Buffer.WriteString buffer (time.Format timestamp dateTimeFormat) in
  let buffer := Buffer.WriteString buffer LF in
  let buffer := Buffer.WriteString buffer (credentialScope timestamp region service) in
  let buffer := Buffer.WriteString buffer LF in
  let buffer := Buffer.WriteString buffer hashedCanonicalRequest in
  Buffer.String buffer.

Definition hashedBody (payload : string) : string :=
  hex.EncodeToString (sha256.Sum256 (bytes_of_string payload)).

Section canonicalization.

(** [strings.Map(unicode.ToLower, _)], see [strings.ToLower]. *)
Variable unicodeLower : string -> string.

(** [for name := range header] visits the keys of the map in an order Go does
    not fix; [map_to_list] enumerates them in one such order, and the sort
    makes the result the same for every order (lemma
    [signedHeaders_any_order]). *)
Definition signedHeaders (header : textproto.MIMEHeader) : string :=
  let headerNames :=
    fold_left (fun headerNames name => headerNames ++ [strings.ToLower unicodeLower name])
              (map fst (map_to_list header)) [] in
  let headerNames := headerNames ++ [hostHeader] in
  let headerNames := sort.Strings headerNames in
  strings.Join headerNames ";".

(** The first loop of [canonicalHeaders], over the entries of the map in the
    order [entries].  [canonicalHeaders] passes the order of [map_to_list];
    the map built is the same for every order [range] may take, unless two
    keys of the header lower-case to the same name (lemma
    [lowerCaseHeaders_any_order]). *)
Definition lowerCaseHeaders_of (entries : list (string * list string)) : gmap string string :=
  fold_left (fun lowerCaseHeaders '(name, value) =>
               let lowerName := strings.ToLower unicodeLower name in
               <[lowerName := strings.Join value " "]> lowerCaseHeaders)
            entries ∅.

Definition canonicalHeaders (header : textproto.MIMEHeader) (host : string) : string :=
  let signedHeaders := signedHeaders header in
  let lowerCaseHeaders := lowerCaseHeaders_of (map_to_list header) in
  let lowerCaseHeaders := <[hostHeader := host]> lowerCaseHeaders in
  let headerNames := strings.Split signedHeaders ";" in
  let buffer :=
    fold_left (fun buffer name =>
                 let buffer := Buffer.WriteString buffer name in
                 let buffer := Buffer.WriteString buffer ":" in
                 let buffer := Buffer.WriteString buffer (lowerCaseHeaders !!! name) in
                 Buffer.WriteString buffer LF)
              headerNames Buffer.new in
  let buffer := Buffer.WriteString buffer LF in
  let buffer := Buffer.WriteString buffer signedHeaders in
  Buffer.String buffer.

Definition canonicalString (request : http.Request) (payload : string) : string :=
  let buffer := Buffer.new in
  let buffer := Buffer.WriteString buffer (http.Method request) in
  let buffer := Buffer.WriteString buffer LF in
  let buffer := Buffer.WriteString buffer (url.EscapedPath (http.URL request)) in
  let buffer := Buffer.WriteString buffer LF in
  let buffer := Buffer.WriteString buffer (url.Encode (url.Query (http.URL request))) in
  let buffer := Buffer.WriteString buffer LF in
  let buffer := Buffer.WriteString buffer
                  (canonicalHeaders (http.Header request) (http.Host request)) in
  let buffer := Buffer.WriteString buffer LF in
  let buffer := Buffer.WriteString buffer (hashedBody payload) in
  Buffer.String buffer.

Definition AWSSignature (request : http.Request) (payload : string) (timestamp : time.Time)
    (region service key : string) : string :=
  let string := canonicalString request payload in
  let hashed := hex.EncodeToString (sha256.Sum256 (bytes_of_string string)) in
  let stringToSign := stringToSign timestamp region service hashed in
  let signingKey := deriveSigningKey key timestamp region service in
  calculateSignature signingKey stringToSign.

(** [request.Header.Add(key, value)] on the request the caller passed by
    pointer: the request after the call. *)
Definition Header_Add (request : http.Request) (key value : string) : http.Request :=
  http.mkRequest (http.Method request) (http.URL request)
    (textproto.Add (http.Header request) key value)
    (http.Host request) (http.Body request).

(** [signer.Sign(request, payload)].  [now] is the value of
    [time.Now().UTC()]; the result is the caller's request after the call. *)
Definition Sign (signer : Signer) (now : time.Time) (request : http.Request) (payload : string)
  : http.Request :=
  let timestamp := now in
  let request := Header_Add request dateHeader (time.Format timestamp time.RFC3339) in
  let signedHeaders := signedHeaders (http.Header request) in
  let credential :=
    AccessKeyID signer +:+ "/" +:+ credentialScope timestamp (Region signer) (Service signer) in
  let signature :=
    AWSSignature request payload timestamp (Region signer) (Service signer)
                 (AccessKeySecret signer) in
  Header_Add request "Authorization"
    (algorithm +:+ ", Credential=" +:+ credential +:+ ", SignedHeaders=" +:+ signedHeaders
       +:+ ", Signature=" +:+ signature).

End canonicalization.

(** * Inputs of the examples *)

(** The instance of [unicodeLower] for closed examples: their header names
    are ASCII, so [strings.ToLower] never consults it. *)
Definition noUnicode : string -> string := fun s => s.

(** The request of the package's tests ([fakeRequest]): the published
    test vector of the signing process. *)
Definition fakeRequest : http.Request :=
  let query := url.Add (url.Add ∅ "Action" "ListUsers") "Version" "2010-05-08" in
  let header := textproto.Add ∅ "X-Amz-Date" "20150830T123600Z" in
  let header := textproto.Add header "Content-Type"
                  "application/x-www-form-urlencoded; charset=utf-8" in
  http.mkRequest http.MethodGet (url.mkURL "/" "" (url.Encode query)) header
                 "iam.amazonaws.com" [].

Definition testTime : time.Time := time.Date 2015 8 30 12 36 0.

Definition exampleSigner : Signer :=
  mkSigner "us-east-1" "iam" "AKIDEXAMPLE" "wJalrXUtnFEMI/K7MDENG+bPxRfiCYEXAMPLEKEY".

(** The request of the package's README: the test vector before any date
    header is attached. *)
Definition readmeRequest : http.Request :=
  http.mkRequest http.MethodGet (url.mkURL "/" "" "Action=ListUsers&Version=2010-05-08")
    (textproto.Add ∅ "Content-Type" "application/x-www-form-urlencoded; charset=utf-8")
    "iam.amazonaws.com" [].

(** A request whose path is empty. *)
Definition emptyPathRequest : http.Request :=
  http.mkRequest "GET" (url.mkURL "" "" "") ∅ "example.com" [].

(** The canonical request the package's test expects for [fakeRequest]. *)
Definition expectedCanonicalString : string :=
  "GET" +:+ LF +:+ "/" +:+ LF +:+ "Action=ListUsers&Version=2010-05-08" +:+ LF
  +:+ "content-type:application/x-www-form-urlencoded; charset=utf-8" +:+ LF
  +:+ "host:iam.amazonaws.com" +:+ LF
  +:+ "x-amz-date:20150830T123600Z" +:+ LF
  +:+ LF
  +:+ "content-type;host;x-amz-date" +:+ LF
  +:+ "e3b0c44298fc1c149afbf4c8996fb92427ae41e4649b934ca495991b7852b855".

(** The keys derived for the services iam and s3, all else equal. *)
Definition iamKeys : signingKeys :=
  deriveSigningKey_locals "wJalrXUtnFEMI/K7MDENG+bPxRfiCYEXAMPLEKEY" testTime "us-east-1" "iam".
Definition s3Keys : signingKeys :=
  deriveSigningKey_locals "wJalrXUtnFEMI/K7MDENG+bPxRfiCYEXAMPLEKEY" testTime "us-east-1" "s3".

(** * The specification's words

    The signing-key contract of the specification is written with
    [HMAC(key, message)]: HMAC-SHA256 as RFC 2104 defines it, with the key
    hashed when it is longer than a block and then filled with zeros to a
    block ([spec_HMAC]), chained over the date, the region, the service and
    the terminator ([spec_signingKey]). *)

Definition spec_HMAC (key message : list byte) : list byte :=
  let k := if (sha256.BlockSize <? length key)%nat then sha256.Sum256 key else key in
  let k := k ++ replicate (sha256.BlockSize - length k) (byte_of_Z 0) in
  let xor c := map (fun b => byte_of_Z (Z.lxor (byte_to_Z b) c)) in
  sha256.Sum256 (xor 0x5c%Z k ++ sha256.Sum256 (xor 0x36%Z k ++ message)).

Definition spec_signingKey (secretKey date region service : string) : list byte :=
  let kDate := spec_HMAC (bytes_of_string ("AWS4" +:+ secretKey)) (bytes_of_string date) in
  let kRegion := spec_HMAC kDate (bytes_of_string region) in
  let kService := spec_HMAC kRegion (bytes_of_string service) in
  spec_HMAC kService (bytes_of_string "aws4_request").

(** A calendar field in decimal, zero-padded to [width]: "YYYY", "MM", ... *)
Definition spec_field (x : Z) (width : nat) : string := time.appendInt "" x width.

(** The date-only rendering YYYYMMDD and the compact rendering
    YYYYMMDDTHHMMSSZ of an instant. *)
Definition spec_date (t : time.Time) : string :=
  spec_field (time.Year t) 4 +:+ spec_field (time.Month t) 2 +:+ spec_field (time.Day t) 2.

Definition spec_compact (t : time.Time) : string :=
  spec_date t +:+ "T" +:+ spec_field (time.Hour t) 2 +:+ spec_field (time.Minute t) 2
    +:+ spec_field (time.Second t) 2 +:+ "Z".

(** The last of the newline-joined segments of a canonical request: the text
    after its last line feed. *)
Definition isLF (c : ascii) : bool := Ascii.eqb c (ascii_of_nat 10).

Fixpoint string_existsb (p : ascii -> bool) (s : string) : bool :=
  match s with
  | EmptyString => false
  | String c s' => p c || string_existsb p s'
  end.

Fixpoint lastSegment (s : string) : string :=
  match s with
  | EmptyString => EmptyString
  | String c s' =>
      if string_existsb isLF s' then lastSegment s'
      else if isLF c then s' else s
  end.

(** The query segment as the specification words it: every name and value
    percent-encoded (RFC 3986: letters, digits and "-", "_", ".", "~" stay,
    any other byte becomes "%XX"), the parameters then sorted by name with
    ties broken by value, and joined as name=value pairs with "&". *)
Fixpoint spec_percentEncode (s : string) : string :=
  match s with
  | EmptyString => EmptyString
  | String c s' =>
      if isLowerAZ c || isUpperAZ c || isDigit09 c
         || existsb (Ascii.eqb c) (String.list_ascii_of_string "-_.~")
      then String c (spec_percentEncode s')
      else String "%" (String (nth (N.to_nat (N.shiftr (N_of_ascii c) 4)) url.upperhex "0"%char)
             (String (nth (N.to_nat (N.land (N_of_ascii c) 15)) url.upperhex "0"%char)
                (spec_percentEncode s')))
  end.

Definition spec_paramLe (p q : string * string) : Prop :=
  if decide (p.1 = q.1) then String.le p.2 q.2 else String.le p.1 q.1.

#[local] Instance spec_paramLe_dec : RelDecision spec_paramLe.
Proof. intros p q. unfold spec_paramLe. destruct (decide (p.1 = q.1)); apply _. Defined.

Definition spec_canonicalQuery (v : url.Values) : string :=
  let params :=
    map_to_list v ≫= fun '(name, values) =>
      (fun value => (spec_percentEncode name, spec_percentEncode value)) <$> values in
  strings.Join ((fun p => p.1 +:+ "=" +:+ p.2) <$> merge_sort spec_paramLe params) "&".

(** The header set whose names are the given ones (the values play no part
    in [signedHeaders]). *)
Definition headerSetOf (names : list string) : textproto.MIMEHeader :=
  foldr (fun name h => <[name := [""]]> h) ∅ names.

(** The request with another body ([request.Body = body]). *)
Definition withBody (request : http.Request) (body : list byte) : http.Request :=
  http.mkRequest (http.Method request) (http.URL request) (http.Header request)
                 (http.Host request) body.

(** The value of the [Authorization] header [Sign] computes; the request it
    signs already carries the date header. *)
Definition authorizationOf (unicodeLower : string -> string) (signer : Signer)
    (now : time.Time) (request : http.Request) (payload : string) : string :=
  let dated := Header_Add request dateHeader (time.Format now time.RFC3339) in
  algorithm +:+ ", Credential="
    +:+ (AccessKeyID signer +:+ "/" +:+ credentialScope now (Region signer) (Service signer))
    +:+ ", SignedHeaders=" +:+ signedHeaders unicodeLower (http.Header dated)
    +:+ ", Signature="
    +:+ AWSSignature unicodeLower dated payload now (Region signer) (Service signer)
          (AccessKeySecret signer).

(** One parameter as [Encode] writes it, and the parameters of a [Values] in
    the order [Encode] writes them: the names in increasing order, the values
    of a name in the order the map holds them. *)
Definition renderParam (p : string * string) : string :=
  url.QueryEscape p.1 +:+ "=" +:+ url.QueryEscape p.2.

Definition paramsOf (v : url.Values) : list (string * string) :=
  sort.Strings (map fst (map_to_list v)) ≫= fun name => pair name <$> v !!! name.

#[local] Instance byte_eq_dec : EqDecision byte := Byte.byte_eq_dec.

(** Counting byte strings: the 256 bytes, and the [256 ^ n] byte strings of
    length [n]. *)
Definition all_bytes : list byte := byte_of_Z <$> seqZ 0 256.

Fixpoint words (n : nat) : list (list byte) :=
  match n with
  | O => [[]]
  | S n' => all_bytes ≫= fun b => cons b <$> words n'
  end.

(** Byte classes and requests for the further properties. *)

(** A lower-case hexadecimal digit. *)
Definition isHexLower (c : ascii) : bool := isDigit09 c || byte_in "a" "f" c.

(** A decimal digit or a minus sign: the bytes [appendInt] writes. *)
Definition isDigitOrMinus (c : ascii) : bool := isDigit09 c || Ascii.eqb c "-".

(** A printable ASCII byte other than the space: "!" to "~". *)
Definition isGraphic (c : ascii) : bool := byte_in "!" "~" c.

(** The bytes of an encoded query: the unreserved bytes, and "%", "+", "="
    and "&". *)
Definition isQueryByte (c : ascii) : bool :=
  isLowerAZ c || isUpperAZ c || isDigit09 c
  || existsb (Ascii.eqb c) (String.list_ascii_of_string "-_.~%+=&").

(** The request with another raw query ([request.URL.RawQuery = query]). *)
Definition withRawQuery (request : http.Request) (query : string) : http.Request :=
  http.mkRequest (http.Method request)
    (url.mkURL (url.Path (http.URL request)) (url.RawPath (http.URL request)) query)
    (http.Header request) (http.Host request) (http.Body request).

(** ** The order of the [range] loops

    Go leaves open the order in which [range] visits a map, and it may
    differ from one loop to the next.  [signedHeaders] and
    [canonicalHeaders] above take the order of [map_to_list].  The functions
    below are the same code with the order of each loop as an argument:
    [visitedNames] is the order in which the loop of [signedHeaders] meets
    the keys, [visitedEntries] the order in which the first loop of
    [canonicalHeaders] meets the entries.  A run of the source on [header]
    is an instance at lists that [visits] relates to [header]. *)
Section traversal_orders.

Variable unicodeLower : string -> string.

Definition signedHeaders_visiting (visitedNames : list string) : string :=
  let headerNames :=
    fold_left (fun headerNames name => headerNames ++ [strings.ToLower unicodeLower name])
              visitedNames [] in
  let headerNames := headerNames ++ [hostHeader] in
  let headerNames := sort.Strings headerNames in
  strings.Join headerNames ";".

Definition canonicalHeaders_visiting (visitedNames : list string)
    (visitedEntries : list (string * list string)) (host : string) : string :=
  let signedHeaders := signedHeaders_visiting visitedNames in
  let lowerCaseHeaders := lowerCaseHeaders_of unicodeLower visitedEntries in
  let lowerCaseHeaders := <[hostHeader := host]> lowerCaseHeaders in
  let headerNames := strings.Split signedHeaders ";" in
  let buffer :=
    fold_left (fun buffer name =>
                 let buffer := Buffer.WriteString buffer name in
                 let buffer := Buffer.WriteString buffer ":" in
                 let buffer := Buffer.WriteString buffer (lowerCaseHeaders !!! name) in
                 Buffer.WriteString buffer LF)
              headerNames Buffer.new in
  let buffer := Buffer.WriteString buffer LF in
  let buffer := Buffer.WriteString buffer signedHeaders in
  Buffer.String buffer.

Definition canonicalString_visiting (visitedNames : list string)
    (visitedEntries : list (string * list string)) (request : http.Request) (payload : string)
  : string :=
  let buffer := Buffer.new in
  let buffer := Buffer.WriteString buffer (http.Method request) in
  let buffer := Buffer.WriteString buffer LF in
  let buffer := Buffer.WriteString buffer (url.EscapedPath (http.URL request)) in
  let buffer := Buffer.WriteString buffer LF in
  let buffer := Buffer.WriteString buffer (url.Encode (url.Query (http.URL request))) in
  let buffer := Buffer.WriteString buffer LF in
  let buffer := Buffer.WriteString buffer
                  (canonicalHeaders_visiting visitedNames visitedEntries (http.Host request)) in
  let buffer := Buffer.WriteString buffer LF in
  let buffer := Buffer.WriteString buffer (hashedBody payload) in
  Buffer.String buffer.

Definition AWSSignature_visiting (visitedNames : list string)
    (visitedEntries : list (string * list string)) (request : http.Request) (payload : string)
    (timestamp : time.Time) (region service key : string) : string :=
  let string := canonicalString_visiting visitedNames visitedEntries request payload in
  let hashed := hex.EncodeToString (sha256.Sum256 (bytes_of_string string)) in
  let stringToSign := stringToSign timestamp region service hashed in
  let signingKey := deriveSigningKey key timestamp region service in
  calculateSignature signingKey stringToSign.

End traversal_orders.

(** The orders the two loops may take on [header]. *)
Definition visits (header : textproto.MIMEHeader) (visitedNames : list string)
    (visitedEntries : list (string * list string)) : Prop :=
  visitedNames ≡ₚ (map_to_list header).*1 /\ visitedEntries ≡ₚ map_to_list header.

(** A request whose header has two keys that lower-case to one name. *)
Definition collidingRequest : http.Request :=
  http.mkRequest "GET" (url.mkURL "/" "" "") {["A" := ["1"]; "a" := ["2"]]} "example.com" [].

(** * Facts about the library models *)

Section string_facts.

Lemma string_app_cons (c : ascii) (a b : string) : String c a +:+ b = String c (a +:+ b).
Proof. reflexivity. Qed.

Lemma string_app_nil_l (a : string) : "" +:+ a = a.
Proof. reflexivity. Qed.

Lemma string_app_nil_r (a : string) : a +:+ "" = a.
Proof. induction a as [|c a IH]; [reflexivity|]. by rewrite string_app_cons, IH. Qed.

Lemma string_app_assoc (a b c : string) : (a +:+ b) +:+ c = a +:+ (b +:+ c).
Proof.
  induction a as [|x a IH]; [reflexivity|].
  by rewrite !string_app_cons, IH.
Qed.

Lemma string_length_app (a b : string) :
  String.length (a +:+ b) = String.length a + String.length b.
Proof.
  induction a as [|x a IH]; [reflexivity|].
  rewrite string_app_cons. simpl. by rewrite IH.
Qed.

End string_facts.

Section hash_facts.

Lemma length_BEPutUint32 (x : Z) : length (sha256.BEPutUint32 x) = 4.
Proof. reflexivity. Qed.

Lemma length_digest_bytes (s : sha256.state) : length (sha256.digest_bytes s) = sha256.Size.
Proof.
  unfold sha256.digest_bytes. rewrite !length_app, !length_BEPutUint32. reflexivity.
Qed.

(** A SHA-256 digest has 32 bytes, whatever was hashed. *)
Lemma length_Sum256 (data : list byte) : length (sha256.Sum256 data) = sha256.Size.
Proof. unfold sha256.Sum256. apply length_digest_bytes. Qed.

Lemma length_hmac_Sum (mac : hmac.HMAC) : length (hmac.Sum mac []) = sha256.Size.
Proof. unfold hmac.Sum. rewrite app_nil_l. apply length_Sum256. Qed.

Lemma length_EncodeToString (b : list byte) :
  String.length (hex.EncodeToString b) = 2 * length b.
Proof. induction b as [|v b IH]; simpl; [reflexivity|]. rewrite IH. lia. Qed.

(** The buffer of a pad is the key followed by zeros, when the key fits. *)
Lemma take_zero_fill (key : list byte) (z : byte) (n : nat) :
  length key <= n -> take n (key ++ replicate n z) = key ++ replicate (n - length key) z.
Proof.
  intros Hlen. rewrite take_app_ge by exact Hlen. f_equal.
  rewrite take_replicate. f_equal. lia.
Qed.

Lemma length_hmac_key (key : list byte) :
  length (if (sha256.BlockSize <? length key)%nat then sha256.Sum256 key else key)
  <= sha256.BlockSize.
Proof.
  destruct (sha256.BlockSize <? length key)%nat eqn:E.
  - rewrite length_Sum256. unfold sha256.Size, sha256.BlockSize. lia.
  - apply Nat.ltb_ge in E. exact E.
Qed.

(** The three calls [hmac.New], [Write], [Sum(nil)] compute the HMAC of the
    specification. *)
Lemma hmac_New_Write_Sum (key message : list byte) :
  hmac.Sum (hmac.Write (hmac.New key) message) [] = spec_HMAC key message.
Proof.
  unfold hmac.Sum, hmac.Write, hmac.New, spec_HMAC, hmac.pad.
  cbn [hmac.opad hmac.ipad hmac.inner app].
  by rewrite (take_zero_fill _ _ _ (length_hmac_key key)).
Qed.

End hash_facts.

(** The digests of the FIPS 180 examples, as a check of the model of
    SHA-256, and the HMAC of a common example. *)
Example Sum256_abc :
  hex.EncodeToString (sha256.Sum256 (bytes_of_string "abc"))
  = "ba7816bf8f01cfea414140de5dae2223b00361a396177a9cb410ff61f20015ad".
Proof. vm_compute. reflexivity. Qed.

Example Sum256_two_blocks :
  hex.EncodeToString (sha256.Sum256 (bytes_of_string
    "abcdbcdecdefdefgefghfghighijhijkijkljklmklmnlmnomnopnopq"))
  = "248d6a61d20638b8e5c026930c3e6039a33ce45964ff2167f6ecedd419db06c1".
Proof. vm_compute. reflexivity. Qed.

Example hmac_quick_brown_fox :
  calculateSignature (bytes_of_string "key") "The quick brown fox jumps over the lazy dog"
  = "f7bc83f430538424b13298e6aa6fb143ef4d59a14946175997479dbc2d1a3cd8".
Proof. vm_compute. reflexivity. Qed.

Section time_facts.

Lemma appendInt_app (b : string) (x : Z) (width : nat) :
  time.appendInt b x width = b +:+ spec_field x width.
Proof. unfold spec_field, time.appendInt. by rewrite string_app_nil_l. Qed.

Lemma Format_dateFormat (t : time.Time) : time.Format t dateFormat = spec_date t.
Proof.
  unfold time.Format.
  replace (time.chunks (String.length dateFormat) dateFormat)
    with [time.stdLongYear; time.stdZeroMonth; time.stdZeroDay] by (vm_compute; reflexivity).
  simpl. rewrite !appendInt_app, string_app_nil_l. unfold spec_date.
  by rewrite string_app_assoc.
Qed.

Lemma Format_dateTimeFormat (t : time.Time) :
  time.Format t dateTimeFormat = spec_compact t.
Proof.
  unfold time.Format.
  replace (time.chunks (String.length dateTimeFormat) dateTimeFormat)
    with [time.stdLongYear; time.stdZeroMonth; time.stdZeroDay; time.literal "T";
          time.stdHour; time.stdZeroMinute; time.stdZeroSecond; time.literal "Z"]
    by (vm_compute; reflexivity).
  simpl. rewrite !appendInt_app, string_app_nil_l. unfold spec_compact, spec_date.
  by rewrite !string_app_assoc.
Qed.

(** The extended rendering [time.RFC3339] gives for a UTC instant:
    YYYY-MM-DDTHH:MM:SSZ. *)
Lemma Format_RFC3339 (t : time.Time) :
  time.Format t time.RFC3339 =
    spec_field (time.Year t) 4 +:+ "-" +:+ spec_field (time.Month t) 2 +:+ "-"
      +:+ spec_field (time.Day t) 2 +:+ "T" +:+ spec_field (time.Hour t) 2 +:+ ":"
      +:+ spec_field (time.Minute t) 2 +:+ ":" +:+ spec_field (time.Second t) 2 +:+ "Z".
Proof.
  unfold time.Format.
  replace (time.chunks (String.length time.RFC3339) time.RFC3339)
    with [time.stdLongYear; time.literal "-"; time.stdZeroMonth; time.literal "-";
          time.stdZeroDay; time.literal "T"; time.stdHour; time.literal ":";
          time.stdZeroMinute; time.literal ":"; time.stdZeroSecond; time.stdISO8601ColonTZ]
    by (vm_compute; reflexivity).
  simpl. rewrite !appendInt_app, string_app_nil_l.
  by rewrite !string_app_assoc.
Qed.

(** The two renderings of one instant never have the same length. *)
Lemma RFC3339_longer_than_compact (t : time.Time) :
  String.length (time.Format t time.RFC3339)
  = String.length (time.Format t dateTimeFormat) + 4.
Proof.
  rewrite Format_RFC3339, Format_dateTimeFormat. unfold spec_compact, spec_date.
  rewrite !string_app_assoc, !string_length_app. simpl. lia.
Qed.

End time_facts.

Section header_facts.

Lemma CanonicalMIMEHeaderKey_dateHeader :
  textproto.CanonicalMIMEHeaderKey dateHeader = "X-Amz-Date".
Proof. vm_compute. reflexivity. Qed.

Lemma CanonicalMIMEHeaderKey_Authorization :
  textproto.CanonicalMIMEHeaderKey "Authorization" = "Authorization".
Proof. vm_compute. reflexivity. Qed.

Lemma lookup_Add (h : textproto.MIMEHeader) (key value : string) :
  textproto.Add h key value !! textproto.CanonicalMIMEHeaderKey key
  = Some (h !!! textproto.CanonicalMIMEHeaderKey key ++ [value]).
Proof. unfold textproto.Add. apply lookup_insert_eq. Qed.

Lemma lookup_Add_ne (h : textproto.MIMEHeader) (key value name : string) :
  textproto.CanonicalMIMEHeaderKey key ≠ name ->
  textproto.Add h key value !! name = h !! name.
Proof. intros Hne. unfold textproto.Add. by apply lookup_insert_ne. Qed.

Lemma lookup_total_Add_ne (h : textproto.MIMEHeader) (key value name : string) :
  textproto.CanonicalMIMEHeaderKey key ≠ name ->
  textproto.Add h key value !!! name = h !!! name.
Proof.
  intros Hne. rewrite !lookup_total_alt. by rewrite lookup_Add_ne.
Qed.

Lemma lookup_total_Add (h : textproto.MIMEHeader) (key value : string) :
  textproto.Add h key value !!! textproto.CanonicalMIMEHeaderKey key
  = h !!! textproto.CanonicalMIMEHeaderKey key ++ [value].
Proof. rewrite lookup_total_alt. by rewrite lookup_Add. Qed.

End header_facts.

Section segment_facts.

Lemma string_existsb_app (p : ascii -> bool) (a b : string) :
  string_existsb p (a +:+ b) = string_existsb p a || string_existsb p b.
Proof.
  induction a as [|c a IH]; [reflexivity|].
  rewrite string_app_cons. simpl. rewrite IH. by rewrite orb_assoc.
Qed.

(** The text after the last line feed of [a ++ "\n" ++ b] is [b], when [b] has
    no line feed. *)
Lemma lastSegment_app (a b : string) :
  string_existsb isLF b = false -> lastSegment (a +:+ LF +:+ b) = b.
Proof.
  intros Hb. induction a as [|c a IH].
  - change ("" +:+ LF +:+ b) with (String (ascii_of_nat 10) b).
    cbn [lastSegment]. rewrite Hb. reflexivity.
  - rewrite string_app_cons. cbn [lastSegment].
    rewrite string_existsb_app.
    replace (string_existsb isLF (LF +:+ b)) with true by reflexivity.
    rewrite orb_true_r. exact IH.
Qed.

Lemma hex_digit_not_LF (n : N) : isLF (hex.digit n) = false.
Proof.
  unfold hex.digit.
  assert (H : forall k, isLF (nth k hex.hextable "0"%char) = false).
  { intros k. do 17 (destruct k as [|k]; [reflexivity|]). reflexivity. }
  apply H.
Qed.

Lemma EncodeToString_no_LF (b : list byte) :
  string_existsb isLF (hex.EncodeToString b) = false.
Proof.
  induction b as [|v b IH]; [reflexivity|].
  cbn [hex.EncodeToString string_existsb]. by rewrite !hex_digit_not_LF, IH.
Qed.

End segment_facts.

Section order_facts.

Variable unicodeLower : string -> string.

(** A sorted arrangement of a list of strings is the one [sort.Strings]
    returns: the result does not depend on the sorting algorithm. *)
Lemma sort_Strings_unique (x sorted : list string) :
  sorted ≡ₚ x -> StronglySorted String.le sorted -> sorted = sort.Strings x.
Proof.
  intros Hperm Hsorted. apply (StronglySorted_unique String.le); [exact Hsorted| |].
  - unfold sort.Strings. apply StronglySorted_merge_sort; apply _.
  - unfold sort.Strings. by rewrite merge_sort_Permutation.
Qed.

Lemma sort_Strings_Permutation (x y : list string) :
  x ≡ₚ y -> sort.Strings x = sort.Strings y.
Proof.
  intros Hperm. apply sort_Strings_unique.
  - unfold sort.Strings. by rewrite merge_sort_Permutation.
  - unfold sort.Strings. apply StronglySorted_merge_sort; apply _.
Qed.

Lemma fold_left_snoc_fmap {A B : Type} (f : A -> B) (l : list A) (acc : list B) :
  fold_left (fun acc x => acc ++ [f x]) l acc = acc ++ (f <$> l).
Proof.
  revert acc. induction l as [|x l IH]; intros acc; cbn [fold_left fmap list_fmap].
  - by rewrite app_nil_r.
  - rewrite IH. by rewrite <- app_assoc.
Qed.

(** The names [signedHeaders] joins: the lower-cased keys and "host", sorted. *)
Lemma signedHeaders_names (header : textproto.MIMEHeader) :
  signedHeaders unicodeLower header
  = strings.Join
      (sort.Strings ((strings.ToLower unicodeLower <$> (map_to_list header).*1) ++ [hostHeader]))
      ";".
Proof.
  unfold signedHeaders. by rewrite fold_left_snoc_fmap, app_nil_l.
Qed.

(** Whatever order the keys of the map are visited in, [signedHeaders]
    returns the same string. *)
Lemma signedHeaders_any_order (header : textproto.MIMEHeader) (visited : list string) :
  visited ≡ₚ (map_to_list header).*1 ->
  strings.Join
    (sort.Strings
       (fold_left (fun names name => names ++ [strings.ToLower unicodeLower name]) visited []
          ++ [hostHeader])) ";"
  = signedHeaders unicodeLower header.
Proof.
  intros Hperm. rewrite signedHeaders_names, fold_left_snoc_fmap, app_nil_l.
  f_equal. apply sort_Strings_Permutation. by rewrite Hperm.
Qed.

(** "host" is in the sorted name list once for the appended entry and once
    more for every key of the map that lower-cases to "host". *)
Lemma signedHeaders_host_count (header : textproto.MIMEHeader) :
  length (filter (fun name => name = hostHeader)
            (sort.Strings ((strings.ToLower unicodeLower <$> (map_to_list header).*1)
                             ++ [hostHeader])))
  = S (length (filter (fun name => strings.ToLower unicodeLower name = hostHeader)
                 (map_to_list header).*1)).
Proof.
  unfold sort.Strings. rewrite merge_sort_Permutation.
  rewrite filter_app, length_app. rewrite filter_cons_True by reflexivity.
  cbn [filter list_filter length]. rewrite Nat.add_1_r. f_equal.
  induction ((map_to_list header).*1) as [|name names IH]; [reflexivity|].
  cbn [fmap list_fmap].
  destruct (decide (strings.ToLower unicodeLower name = hostHeader)) as [Heq|Hne].
  - rewrite !filter_cons_True by assumption. cbn [length]. by rewrite <- IH.
  - rewrite !filter_cons_False by assumption. exact IH.
Qed.

(** The first loop of [canonicalHeaders] builds the same map for every order
    of traversal, when no two keys lower-case to the same name.  (With two
    such keys the value Go keeps depends on the order it happens to visit
    them in; the model visits them in the order of [map_to_list].) *)
Lemma lowerCaseHeaders_fold_any_order (entries entries' : list (string * list string))
    (m : gmap string string) :
  entries ≡ₚ entries' ->
  NoDup (strings.ToLower unicodeLower <$> entries.*1) ->
  fold_left (fun lowerCaseHeaders '(name, value) =>
               <[strings.ToLower unicodeLower name := strings.Join value " "]> lowerCaseHeaders)
            entries m
  = fold_left (fun lowerCaseHeaders '(name, value) =>
               <[strings.ToLower unicodeLower name := strings.Join value " "]> lowerCaseHeaders)
            entries' m.
Proof.
  intros Hperm. revert m.
  induction Hperm as [|[n v] l l' Hp IH|[n1 v1] [n2 v2] l|l l' l'' Hp1 IH1 Hp2 IH2];
    intros m Hnd.
  - reflexivity.
  - cbn [fold_left]. apply IH. cbn [fmap list_fmap fst] in Hnd. by apply NoDup_cons in Hnd as [_ ?].
  - cbn [fold_left]. f_equal. apply insert_insert_ne.
    cbn [fmap list_fmap fst] in Hnd. apply NoDup_cons in Hnd as [Hnotin _].
    intros Heq. apply Hnotin. rewrite Heq. apply list_elem_of_here.
  - rewrite IH1 by exact Hnd. apply IH2. by rewrite <- Hp1.
Qed.

Lemma lowerCaseHeaders_any_order (header : textproto.MIMEHeader)
    (visited : list (string * list string)) :
  visited ≡ₚ map_to_list header ->
  NoDup (strings.ToLower unicodeLower <$> (map_to_list header).*1) ->
  lowerCaseHeaders_of unicodeLower visited
  = lowerCaseHeaders_of unicodeLower (map_to_list header).
Proof.
  intros Hperm Hnd. unfold lowerCaseHeaders_of.
  apply lowerCaseHeaders_fold_any_order; [exact Hperm|]. by rewrite Hperm.
Qed.

End order_facts.

Section fuel_facts.

Lemma length_string_drop (n : nat) (s : string) :
  String.length (string_drop n s) <= String.length s.
Proof.
  revert s. induction n as [|n IH]; intros [|c s]; cbn [string_drop String.length]; try lia.
  specialize (IH s). lia.
Qed.

Lemma length_Cut_after (s sep : string) :
  String.length (strings.Cut s sep).1.2 <= String.length s.
Proof.
  induction s as [|c s IH]; cbn [strings.Cut].
  - destruct (String.prefix sep ""); cbn [fst snd string_drop]; [|reflexivity].
    apply length_string_drop.
  - destruct (String.prefix sep (String c s)); cbn [fst snd].
    + apply length_string_drop.
    + destruct (strings.Cut s sep) as [[before after] found]. cbn [fst snd] in *.
      cbn [String.length]. lia.
Qed.

(** Cutting a non-empty string at a non-empty separator leaves a shorter
    rest: every turn of the loop of [parseQuery] shortens the query. *)
Lemma length_Cut_after_lt (c x : ascii) (s sep : string) :
  String.length (strings.Cut (String c s) (String x sep)).1.2 < String.length (String c s).
Proof.
  cbn [strings.Cut].
  destruct (String.prefix (String x sep) (String c s)); cbn [fst snd].
  - cbn [String.length string_drop]. pose proof (length_string_drop (String.length sep) s). lia.
  - pose proof (length_Cut_after s (String x sep)) as Hle.
    destruct (strings.Cut s (String x sep)) as [[before after] found]. cbn [fst snd] in *.
    cbn [String.length]. lia.
Qed.

(** The loop of [parseQuery] ends within [length query + 1] turns: any larger
    fuel gives the same map, so [Query] is the result of the whole loop. *)
Lemma parseQuery_fuel (fuel fuel' : nat) (m : url.Values) (query : string) :
  String.length query < fuel -> String.length query < fuel' ->
  url.parseQuery fuel m query = url.parseQuery fuel' m query.
Proof.
  revert fuel' m query. induction fuel as [|fuel IH]; intros fuel' m query H1 H2; [lia|].
  destruct fuel' as [|fuel']; [lia|].
  cbn [url.parseQuery].
  destruct query as [|c query]; [reflexivity|].
  cbn [String.eqb].
  pose proof (length_Cut_after_lt c "&" query "") as Hlt.
  destruct (strings.Cut (String c query) "&") as [[key rest] found]. cbn [fst snd] in Hlt.
  assert (Hrec : forall m', url.parseQuery fuel m' rest = url.parseQuery fuel' m' rest).
  { intros m'. apply IH; cbn [String.length] in *; lia. }
  destruct (strings.Contains key ";"); [apply Hrec|].
  destruct (String.eqb key ""); [apply Hrec|].
  destruct (strings.Cut key "=") as [[k v] ?].
  destruct (url.QueryUnescape k); [|apply Hrec].
  destruct (url.QueryUnescape v); apply Hrec.
Qed.

Lemma prefix_byte (c x : ascii) (s : string) :
  String.prefix (String c "") (String x s) = Ascii.eqb x c.
Proof.
  cbn [String.prefix]. destruct (ascii_dec c x) as [->|Hne].
  - rewrite Ascii.eqb_refl. by destruct s.
  - symmetry. apply Ascii.eqb_neq. congruence.
Qed.

(** Cutting at a one-byte separator: the text before its first instance and
    the text after it. *)
Lemma Cut_byte_app (c : ascii) (a b : string) :
  string_forallb (fun x => negb (Ascii.eqb x c)) a = true ->
  strings.Cut (a +:+ String c b) (String c "") = (a, b, true).
Proof.
  induction a as [|x a IH]; intros Ha.
  - rewrite string_app_nil_l. cbn [strings.Cut]. rewrite prefix_byte, Ascii.eqb_refl.
    reflexivity.
  - cbn [string_forallb] in Ha. apply andb_true_iff in Ha as [Hx Ha].
    rewrite string_app_cons. cbn [strings.Cut]. rewrite prefix_byte.
    apply negb_true_iff in Hx. rewrite Hx, (IH Ha). reflexivity.
Qed.

(** The loop of [parseQuery] reads the pairs from left to right: a first pair
    "key=value" that unescapes, followed by "&", is added to the map (after
    the values the map already holds under the key, see [url.Add]) and the
    loop goes on with the rest of the query. *)
Lemma parseQuery_first_pair (fuel : nat) (m : url.Values) (pair rest rawKey rawValue : string)
    (found : bool) (key value : string) :
  string_forallb (fun x => negb (Ascii.eqb x "&")) pair = true ->
  strings.Contains pair ";" = false ->
  pair <> "" ->
  strings.Cut pair "=" = (rawKey, rawValue, found) ->
  url.QueryUnescape rawKey = Some key ->
  url.QueryUnescape rawValue = Some value ->
  url.parseQuery (S fuel) m (pair +:+ "&" +:+ rest)
  = url.parseQuery fuel (url.Add m key value) rest.
Proof.
  intros Hamp Hsemi Hne Hcut Hkey Hvalue.
  cbn [url.parseQuery].
  replace (String.eqb (pair +:+ "&" +:+ rest) "") with false
    by (symmetry; apply String.eqb_neq; destruct pair; [done|discriminate]).
  change ("&" +:+ rest) with (String "&"%char rest).
  rewrite (Cut_byte_app "&" pair rest Hamp), Hsemi.
  replace (String.eqb pair "") with false by (symmetry; by apply String.eqb_neq).
  rewrite Hcut, Hkey, Hvalue. reflexivity.
Qed.

Lemma lookup_total_url_Add (m : url.Values) (key value : string) :
  url.Add m key value !!! key = m !!! key ++ [value].
Proof. unfold url.Add. by rewrite lookup_total_insert_eq. Qed.

(** The first pair of the query a=2&a=1 is read in this way. *)
Example parseQuery_first_pair_a2 :
  url.parseQuery 8 ∅ ("a=2" +:+ "&" +:+ "a=1") = url.parseQuery 7 (url.Add ∅ "a" "2") "a=1".
Proof. by apply (parseQuery_first_pair 7 ∅ "a=2" "a=1" "a" "2" true "a" "2"). Qed.

(** [blockGeneric] consumes 64 bytes a turn, so the length of the data is
    fuel enough: more fuel gives the same state. *)
Lemma block_fuel (fuel fuel' : nat) (s : sha256.state) (p : list byte) :
  length p <= fuel -> length p <= fuel' -> sha256.block fuel s p = sha256.block fuel' s p.
Proof.
  revert fuel' s p. induction fuel as [|fuel IH]; intros fuel' s p H1 H2.
  - destruct p; [|cbn [length] in H1; lia].
    destruct fuel'; reflexivity.
  - destruct fuel' as [|fuel'].
    + destruct p; [reflexivity|cbn [length] in H2; lia].
    + cbn [sha256.block]. destruct (sha256.chunk <=? length p) eqn:E; [|reflexivity].
      apply Nat.leb_le in E. unfold sha256.chunk in E.
      apply IH; rewrite length_skipn; unfold sha256.chunk; lia.
Qed.

(** A number below [2 ^ fuel] has at most [fuel] decimal digits: more fuel
    gives [digits] the same string, so [decimal] has fuel enough. *)
Lemma digits_fuel (fuel fuel' : nat) (u : Z) (acc : string) :
  (0 <= u < 2 ^ Z.of_nat fuel)%Z -> 1 <= fuel <= fuel' ->
  time.digits fuel u acc = time.digits fuel' u acc.
Proof.
  revert fuel' u acc. induction fuel as [|fuel IH]; intros fuel' u acc Hu Hle; [lia|].
  destruct fuel' as [|fuel']; [lia|].
  cbn [time.digits]. destruct (u <? 10)%Z eqn:E; [reflexivity|].
  apply Z.ltb_ge in E.
  rewrite Nat2Z.inj_succ, Z.pow_succ_r in Hu by lia.
  assert (Hf : 1 <= fuel).
  { destruct fuel; [|lia]. change (2 ^ Z.of_nat 0)%Z with 1%Z in Hu. lia. }
  apply IH; [|lia]. split.
  - apply Z.div_pos; lia.
  - apply Z.div_lt_upper_bound; lia.
Qed.

Lemma decimal_fuel (fuel : nat) (u : Z) :
  (0 <= u)%Z -> S (Z.to_nat (Z.log2 u)) <= fuel -> time.digits fuel u "" = time.decimal u.
Proof.
  intros Hu Hfuel. unfold time.decimal. symmetry. apply digits_fuel; [|lia].
  split; [exact Hu|].
  rewrite Nat2Z.inj_succ, Z2Nat.id by apply Z.log2_nonneg.
  destruct (Z.eq_dec u 0%Z) as [->|Hne]; [reflexivity|].
  apply Z.log2_spec. lia.
Qed.

(** A field below [10 ^ width] is written with exactly [width] digits, so
    the date-only rendering has 8 characters and the compact one 16. *)
Lemma length_digits (w fuel : nat) (u : Z) (acc : string) :
  1 <= w -> (0 <= u < 10 ^ Z.of_nat w)%Z -> w <= fuel ->
  String.length acc < String.length (time.digits fuel u acc) <= w + String.length acc.
Proof.
  revert fuel u acc. induction w as [|w IH]; intros fuel u acc Hw Hu Hfuel; [lia|].
  destruct fuel as [|fuel]; [lia|].
  cbn [time.digits]. destruct (u <? 10)%Z eqn:E; [cbn [String.length]; lia|].
  apply Z.ltb_ge in E.
  rewrite Nat2Z.inj_succ, Z.pow_succ_r in Hu by lia.
  assert (Hw1 : 1 <= w).
  { destruct w; [|lia]. change (10 ^ Z.of_nat 0)%Z with 1%Z in Hu. lia. }
  set (acc' := String (ascii_of_N (48 + Z.to_N (u mod 10))) acc).
  assert (Hdiv : (0 <= u / 10 < 10 ^ Z.of_nat w)%Z).
  { split; [apply Z.div_pos; lia|apply Z.div_lt_upper_bound; lia]. }
  pose proof (IH fuel (u / 10)%Z acc' Hw1 Hdiv ltac:(lia)) as Hlen.
  subst acc'. cbn [String.length] in Hlen. lia.
Qed.

Lemma length_decimal (w : nat) (u : Z) :
  1 <= w -> (0 <= u < 10 ^ Z.of_nat w)%Z -> String.length (time.decimal u) <= w.
Proof.
  intros Hw Hu.
  rewrite <- (decimal_fuel (S (Z.to_nat (Z.log2 u)) `max` w)) by lia.
  pose proof (length_digits w (S (Z.to_nat (Z.log2 u)) `max` w) u "" Hw Hu ltac:(lia)) as Hlen.
  cbn [String.length] in Hlen. lia.
Qed.

Lemma length_string_of_replicate (n : nat) (c : ascii) :
  String.length (String.string_of_list_ascii (replicate n c)) = n.
Proof. induction n as [|n IH]; [reflexivity|]. cbn. by rewrite IH. Qed.

Lemma length_spec_field (x : Z) (width : nat) :
  1 <= width -> (0 <= x < 10 ^ Z.of_nat width)%Z -> String.length (spec_field x width) = width.
Proof.
  intros Hw Hx. unfold spec_field, time.appendInt.
  replace (x <? 0)%Z with false by (symmetry; apply Z.ltb_ge; lia).
  rewrite Z.abs_eq by lia.
  pose proof (length_decimal width x Hw Hx).
  rewrite !string_length_app, length_string_of_replicate. cbn [String.length]. lia.
Qed.

Lemma length_spec_compact (t : time.Time) :
  (0 <= time.Year t < 10000)%Z -> (0 <= time.Month t < 100)%Z -> (0 <= time.Day t < 100)%Z ->
  (0 <= time.Hour t < 100)%Z -> (0 <= time.Minute t < 100)%Z -> (0 <= time.Second t < 100)%Z ->
  String.length (spec_date t) = 8 /\ String.length (spec_compact t) = 16.
Proof.
  intros HY HM HD Hh Hm Hs. unfold spec_compact, spec_date.
  rewrite !string_length_app.
  rewrite (length_spec_field (time.Year t) 4), !(length_spec_field _ 2) by (done || lia).
  cbn [String.length]. lia.
Qed.

End fuel_facts.

Section block_facts.

Variable unicodeLower : string -> string.

Lemma rev_app_rev_app (a b c : string) :
  String.rev_app (String.rev_app a b) c = String.rev_app b (a +:+ c).
Proof.
  revert b. induction a as [|x a IH]; intros b; [reflexivity|].
  cbn [String.rev_app]. rewrite IH. reflexivity.
Qed.

Lemma rev_rev_app (a : string) : String.rev (String.rev_app a "") = a.
Proof.
  unfold String.rev. rewrite rev_app_rev_app. cbn [String.rev_app]. apply string_app_nil_r.
Qed.

(** [Split] passes over a stretch without ";" and collects it. *)
Lemma Split_from_no_sep (a cur rest : string) :
  string_existsb (Ascii.eqb ";") a = false ->
  strings.Split_from ";" 0 cur (a +:+ rest)
  = strings.Split_from ";" 0 (String.rev_app a cur) rest.
Proof.
  revert cur. induction a as [|x a IH]; intros cur Ha; [reflexivity|].
  cbn [string_existsb] in Ha. apply orb_false_iff in Ha as [Hx Ha].
  rewrite string_app_cons. cbn [strings.Split_from String.rev_app].
  rewrite prefix_byte, Ascii.eqb_sym, Hx. apply IH, Ha.
Qed.

(** Splitting at ";" undoes joining with ";", for names without ";". *)
Lemma Split_Join (names : list string) :
  names <> [] ->
  Forall (fun name => string_existsb (Ascii.eqb ";") name = false) names ->
  strings.Split (strings.Join names ";") ";" = names.
Proof.
  unfold strings.Split.
  induction names as [|a names IH]; [done|]. intros _ Hall.
  apply Forall_cons in Hall as [Ha Hall].
  destruct names as [|b names].
  - cbn [strings.Join]. rewrite <- (string_app_nil_r a) at 1.
    rewrite (Split_from_no_sep a "" "" Ha). cbn [strings.Split_from].
    by rewrite rev_rev_app.
  - change (strings.Join (a :: b :: names) ";")
      with (a +:+ String ";"%char (strings.Join (b :: names) ";")).
    rewrite (Split_from_no_sep a "" _ Ha). cbn [strings.Split_from].
    rewrite prefix_byte, Ascii.eqb_refl, rev_rev_app. cbn [String.length Nat.sub].
    f_equal. apply IH; [discriminate|exact Hall].
Qed.

(** The second loop of [canonicalHeaders]: a line "name:value\n" a name. *)
Lemma canonicalHeaders_lines (values : gmap string string) (names : list string)
    (buffer : Buffer.Buffer) :
  fold_left (fun buffer name =>
               let buffer := Buffer.WriteString buffer name in
               let buffer := Buffer.WriteString buffer ":" in
               let buffer := Buffer.WriteString buffer (values !!! name) in
               Buffer.WriteString buffer LF) names buffer
  = buffer +:+ foldr (fun name rest => name +:+ ":" +:+ values !!! name +:+ LF +:+ rest) "" names.
Proof.
  revert buffer. induction names as [|name names IH]; intros buffer; cbn [fold_left foldr].
  - by rewrite string_app_nil_r.
  - rewrite IH. unfold Buffer.WriteString. by rewrite !string_app_assoc.
Qed.

(** The canonical headers block, when no lower-cased name has a ";" in it:
    for each signed name in sorted order a line "name:value\n", then one more
    line feed, then the signed names joined with ";".  The value of [host]
    is the host string, and the value of any other name is the one the first
    loop stored for it. *)
Lemma canonicalHeaders_block (header : textproto.MIMEHeader) (host : string) :
  let names :=
    sort.Strings ((strings.ToLower unicodeLower <$> (map_to_list header).*1) ++ [hostHeader]) in
  let values := <[hostHeader := host]> (lowerCaseHeaders_of unicodeLower (map_to_list header)) in
  Forall (fun name => string_existsb (Ascii.eqb ";") name = false) names ->
  canonicalHeaders unicodeLower header host
  = foldr (fun name rest => name +:+ ":" +:+ values !!! name +:+ LF +:+ rest) "" names
      +:+ LF +:+ strings.Join names ";"
  /\ values !!! hostHeader = host
  /\ forall name, name <> hostHeader ->
       values !!! name = lowerCaseHeaders_of unicodeLower (map_to_list header) !!! name.
Proof.
  intros names values Hnames. split; [|split].
  - unfold canonicalHeaders. rewrite signedHeaders_names. fold names.
    rewrite Split_Join; [|subst names|exact Hnames].
    + fold values. rewrite canonicalHeaders_lines.
      unfold Buffer.String, Buffer.WriteString, Buffer.new.
      by rewrite string_app_nil_l, !string_app_assoc.
    + intros Hnil.
      assert (Hlen : length (sort.Strings
                ((strings.ToLower unicodeLower <$> (map_to_list header).*1) ++ [hostHeader]))
              = 0) by (by rewrite Hnil).
      unfold sort.Strings in Hlen. rewrite merge_sort_Permutation, length_app in Hlen.
      cbn [length] in Hlen. lia.
  - subst values. by rewrite lookup_total_insert_eq.
  - intros name Hne. subst values. by rewrite lookup_total_insert_ne.
Qed.

End block_facts.

Section path_facts.

Lemma unescape_not_empty (c : ascii) (s : string) (mode : url.encoding) :
  url.unescape (String c s) mode <> Some "".
Proof.
  cbn [url.unescape].
  destruct (Ascii.eqb c "%").
  - destruct s as [|a [|b s]]; try discriminate.
    destruct (url.ishex a && url.ishex b); [|discriminate].
    destruct (url.unescape s mode); discriminate.
  - destruct (Ascii.eqb c "+"); destruct (url.unescape s mode); discriminate.
Qed.

(** An empty [Path] is escaped to the empty string, whatever [RawPath] is. *)
Lemma EscapedPath_empty (u : url.URL) : url.Path u = "" -> url.EscapedPath u = "".
Proof.
  intros Hp. unfold url.EscapedPath. rewrite Hp.
  destruct (url.RawPath u) as [|c raw]; [reflexivity|].
  rewrite (bool_decide_eq_false_2 _ (unescape_not_empty c raw url.encodePath)).
  rewrite andb_false_r. reflexivity.
Qed.

Lemma length_calculateSignature (signingKey : list byte) (stringToSign : string) :
  String.length (calculateSignature signingKey stringToSign) = 64.
Proof.
  unfold calculateSignature. by rewrite length_EncodeToString, length_hmac_Sum.
Qed.

End path_facts.

Section query_facts.

Lemma Join_snoc (l : list string) (x sep : string) :
  l <> [] -> strings.Join (l ++ [x]) sep = strings.Join l sep +:+ sep +:+ x.
Proof.
  induction l as [|a l IH]; [done|]. intros _.
  destruct l as [|b l].
  - reflexivity.
  - change (strings.Join ((a :: b :: l) ++ [x]) sep)
      with (a +:+ sep +:+ strings.Join ((b :: l) ++ [x]) sep).
    rewrite IH by discriminate.
    change (strings.Join (a :: b :: l) sep) with (a +:+ sep +:+ strings.Join (b :: l) sep).
    by rewrite !string_app_assoc.
Qed.

Lemma length_renderParam (p : string * string) : 0 < String.length (renderParam p).
Proof. unfold renderParam. rewrite !string_length_app. simpl. lia. Qed.

Lemma length_Join_renderParam (l : list (string * string)) :
  l <> [] -> 0 < String.length (strings.Join (renderParam <$> l) "&").
Proof.
  destruct l as [|p l]; [done|]. intros _.
  pose proof (length_renderParam p) as Hp.
  destruct l as [|q l]; [exact Hp|].
  change (strings.Join (renderParam <$> p :: q :: l) "&")
    with (renderParam p +:+ "&" +:+ strings.Join (renderParam <$> q :: l) "&").
  rewrite string_length_app. lia.
Qed.

(** One turn of the inner loop of [Encode]. *)
Lemma encodeValues_step (name value : string) (done : list (string * string)) :
  url.encodeValues (url.QueryEscape name) (strings.Join (renderParam <$> done) "&") [value]
  = strings.Join (renderParam <$> done ++ [(name, value)]) "&".
Proof.
  unfold url.encodeValues. cbn [fold_left].
  unfold Buffer.WriteString, Buffer.WriteByte, Buffer.Len.
  destruct done as [|p done].
  - cbn [fmap list_fmap strings.Join String.length Nat.ltb Nat.leb app].
    rewrite string_app_nil_l. unfold renderParam. cbn [fst snd].
    by rewrite !string_app_assoc.
  - pose proof (length_Join_renderParam (p :: done)) as Hlen.
    destruct (0 <? String.length (strings.Join (renderParam <$> p :: done) "&")) eqn:E.
    + rewrite fmap_app. cbn [fmap list_fmap]. rewrite Join_snoc by discriminate.
      unfold renderParam at 3. cbn [fst snd]. by rewrite !string_app_assoc.
    + apply Nat.ltb_ge in E. specialize (Hlen ltac:(discriminate)). lia.
Qed.

Lemma encodeValues_cons (keyEscaped : string) (buf : Buffer.Buffer) (value : string)
    (values : list string) :
  url.encodeValues keyEscaped buf (value :: values)
  = url.encodeValues keyEscaped (url.encodeValues keyEscaped buf [value]) values.
Proof. reflexivity. Qed.

Lemma encodeValues_Join (name : string) (values : list string) (done : list (string * string)) :
  url.encodeValues (url.QueryEscape name) (strings.Join (renderParam <$> done) "&") values
  = strings.Join (renderParam <$> done ++ (pair name <$> values)) "&".
Proof.
  revert done. induction values as [|value values IH]; intros done.
  - by rewrite app_nil_r.
  - rewrite encodeValues_cons, encodeValues_step, IH. by rewrite <- app_assoc.
Qed.

Lemma Encode_fold_Join (v : url.Values) (names : list string) (done : list (string * string)) :
  fold_left (fun buf k => url.encodeValues (url.QueryEscape k) buf (v !!! k)) names
            (strings.Join (renderParam <$> done) "&")
  = strings.Join (renderParam <$> done ++ (names ≫= fun name => pair name <$> v !!! name)) "&".
Proof.
  revert done. induction names as [|name names IH]; intros done.
  - cbn [fold_left]. by rewrite app_nil_r.
  - cbn [fold_left]. rewrite encodeValues_Join, IH.
    change ((name :: names) ≫= fun name => pair name <$> v !!! name)
      with ((pair name <$> v !!! name) ++ (names ≫= fun name => pair name <$> v !!! name)).
    by rewrite <- app_assoc.
Qed.

(** [Encode] writes the parameters [paramsOf] joined with "&". *)
Lemma Encode_paramsOf (v : url.Values) :
  url.Encode v = strings.Join (renderParam <$> paramsOf v) "&".
Proof.
  unfold url.Encode. case_bool_decide as Hsize.
  - apply map_size_empty_iff in Hsize. subst v.
    unfold paramsOf. rewrite map_to_list_empty. reflexivity.
  - unfold Buffer.String, Buffer.new.
    change "" with (strings.Join (renderParam <$> []) "&").
    rewrite Encode_fold_Join. reflexivity.
Qed.

Lemma StronglySorted_same_name (name : string) (values : list string) :
  StronglySorted (fun p q : string * string => String.le p.1 q.1) (pair name <$> values).
Proof.
  induction values as [|value values IH]; cbn [fmap list_fmap]; constructor; [exact IH|].
  apply Forall_forall. intros q Hq. apply list_elem_of_fmap in Hq.
  destruct Hq as (x & -> & _). cbn [fst]. reflexivity.
Qed.

Lemma StronglySorted_params (f : string -> list string) (names : list string) :
  StronglySorted String.le names ->
  StronglySorted (fun p q : string * string => String.le p.1 q.1)
                 (names ≫= fun name => pair name <$> f name).
Proof.
  induction 1 as [|name names Hs IH Hall]; [constructor|].
  change ((name :: names) ≫= fun name => pair name <$> f name)
    with ((pair name <$> f name) ++ (names ≫= fun name => pair name <$> f name)).
  apply StronglySorted_app_2; [|apply StronglySorted_same_name|exact IH].
  intros p q Hp Hq.
  apply list_elem_of_fmap in Hp. destruct Hp as (x & -> & _).
  apply list_elem_of_bind in Hq. destruct Hq as (name' & Hq & Hname').
  apply list_elem_of_fmap in Hq. destruct Hq as (y & -> & _). cbn [fst].
  rewrite Forall_forall in Hall. by apply Hall.
Qed.

Lemma filter_same_name (name name' : string) (values : list string) :
  (filter (fun p : string * string => p.1 = name) (pair name' <$> values)).*2
  = if decide (name' = name) then values else [].
Proof.
  induction values as [|value values IH]; [by destruct (decide _)|].
  cbn [fmap list_fmap]. destruct (decide (name' = name)) as [->|Hne].
  - rewrite filter_cons_True by reflexivity. cbn [fmap list_fmap snd]. by rewrite IH.
  - rewrite filter_cons_False by (cbn [fst]; congruence). exact IH.
Qed.

Lemma filter_params (f : string -> list string) (name : string) (names : list string) :
  NoDup names ->
  (filter (fun p : string * string => p.1 = name)
          (names ≫= fun name => pair name <$> f name)).*2
  = if decide (name ∈ names) then f name else [].
Proof.
  induction 1 as [|name' names Hnotin Hnd IH].
  - destruct (decide (name ∈ [])) as [Hin|]; [|reflexivity]. by apply not_elem_of_nil in Hin.
  - change ((name' :: names) ≫= fun name => pair name <$> f name)
      with ((pair name' <$> f name') ++ (names ≫= fun name => pair name <$> f name)).
    rewrite filter_app, fmap_app, filter_same_name, IH.
    destruct (decide (name' = name)) as [->|Hne].
    + rewrite decide_False by exact Hnotin.
      rewrite decide_True by (apply list_elem_of_here). apply app_nil_r.
    + destruct (decide (name ∈ names)) as [Hin|Hnin].
      * rewrite decide_True by (by apply list_elem_of_further). reflexivity.
      * rewrite decide_False; [reflexivity|].
        intros Hin. apply elem_of_cons in Hin. destruct Hin; congruence.
Qed.

(** The values [paramsOf] lists under a name are the values the map holds
    under it, in the same order. *)
Lemma paramsOf_values (v : url.Values) (name : string) :
  (filter (fun p : string * string => p.1 = name) (paramsOf v)).*2 = v !!! name.
Proof.
  unfold paramsOf. rewrite filter_params.
  - destruct (decide (name ∈ sort.Strings (map fst (map_to_list v)))) as [|Hnin];
      [reflexivity|].
    rewrite lookup_total_alt. destruct (v !! name) as [values|] eqn:E; [|reflexivity].
    exfalso. apply Hnin. unfold sort.Strings. rewrite merge_sort_Permutation.
    apply list_elem_of_fmap. exists (name, values). split; [reflexivity|].
    by apply elem_of_map_to_list.
  - unfold sort.Strings. rewrite merge_sort_Permutation. apply NoDup_fst_map_to_list.
Qed.

Lemma paramsOf_sorted (v : url.Values) :
  StronglySorted (fun p q : string * string => String.le p.1 q.1) (paramsOf v).
Proof.
  unfold paramsOf. apply StronglySorted_params.
  unfold sort.Strings. apply StronglySorted_merge_sort; apply _.
Qed.

End query_facts.

Section counting.

Lemma byte_of_to_Z (b : byte) : byte_of_Z (byte_to_Z b) = b.
Proof. destruct b; reflexivity. Qed.

Lemma byte_to_Z_range (b : byte) : (0 <= byte_to_Z b < 256)%Z.
Proof. unfold byte_to_Z. pose proof (Byte.to_N_bounded b). lia. Qed.

Lemma elem_of_all_bytes (b : byte) : b ∈ all_bytes.
Proof.
  unfold all_bytes. apply list_elem_of_fmap. exists (byte_to_Z b). split.
  - symmetry. apply byte_of_to_Z.
  - apply elem_of_seqZ. pose proof (byte_to_Z_range b). lia.
Qed.

Lemma NoDup_all_bytes : NoDup all_bytes.
Proof. apply (bool_decide_unpack _). vm_compute. reflexivity. Qed.

Lemma length_all_bytes : length all_bytes = 256.
Proof. reflexivity. Qed.

Lemma elem_of_words (w : list byte) : w ∈ words (length w).
Proof.
  induction w as [|b w IH]; cbn [words length].
  - apply list_elem_of_singleton. reflexivity.
  - apply list_elem_of_bind. exists b. split; [|apply elem_of_all_bytes].
    apply list_elem_of_fmap. exists w. auto.
Qed.

Lemma length_elem_of_words (n : nat) (w : list byte) : w ∈ words n -> length w = n.
Proof.
  revert w. induction n as [|n IH]; intros w Hw; cbn [words] in Hw.
  - apply list_elem_of_singleton in Hw. by subst.
  - apply list_elem_of_bind in Hw. destruct Hw as (b & Hw & _).
    apply list_elem_of_fmap in Hw. destruct Hw as (w' & -> & Hw').
    cbn [length]. f_equal. by apply IH.
Qed.

Lemma NoDup_words (n : nat) : NoDup (words n).
Proof.
  induction n as [|n IH]; cbn [words].
  - apply NoDup_singleton.
  - apply NoDup_bind; [| |apply NoDup_all_bytes].
    + intros b1 b2 w _ _ H1 H2.
      apply list_elem_of_fmap in H1. destruct H1 as (w1 & -> & _).
      apply list_elem_of_fmap in H2. destruct H2 as (w2 & Heq & _).
      congruence.
    + intros b _. apply NoDup_fmap_2_strong; [|exact IH]. congruence.
Qed.

Lemma length_bind_const {A B : Type} (f : A -> list B) (l : list A) (k : nat) :
  (forall x, length (f x) = k) -> length (l ≫= f) = length l * k.
Proof.
  intros Hf. induction l as [|x l IH]; [reflexivity|].
  change ((x :: l) ≫= f) with (f x ++ (l ≫= f)).
  rewrite length_app, Hf, IH. simpl. lia.
Qed.

Lemma length_words (n : nat) : length (words n) = 256 ^ n.
Proof.
  induction n as [|n IH]; [reflexivity|].
  cbn [words]. rewrite (length_bind_const _ _ (256 ^ n)).
  - rewrite length_all_bytes, Nat.pow_succ_r'. reflexivity.
  - intros b. by rewrite length_fmap.
Qed.

(** No function from byte strings to byte strings of length [n] is injective:
    there are more strings of length [n + 1] than of length [n]. *)
Lemma no_injection_into_fixed_length (n : nat) (g : list byte -> list byte) :
  (forall w, length (g w) = n) -> ~ (forall w1 w2, g w1 = g w2 -> w1 = w2).
Proof.
  intros Hlen Hinj.
  assert (Hnd : NoDup (g <$> words (S n))).
  { apply NoDup_fmap_2_strong; [|apply NoDup_words]. intros w1 w2 _ _. apply Hinj. }
  assert (Hsub : g <$> words (S n) ⊆+ words n).
  { apply NoDup_submseteq; [exact Hnd|]. intros v Hv.
    apply list_elem_of_fmap in Hv. destruct Hv as (w & -> & _).
    rewrite <- (Hlen w). apply elem_of_words. }
  apply submseteq_length in Hsub.
  rewrite length_fmap, !length_words, Nat.pow_succ_r' in Hsub.
  assert (Hpos : 256 ^ n <> 0) by (apply Nat.pow_nonzero; discriminate).
  revert Hsub Hpos. generalize (256 ^ n). intros m Hsub Hpos. lia.
Qed.

Lemma bytes_of_string_of_bytes (w : list byte) : bytes_of_string (string_of_bytes w) = w.
Proof. apply String.list_byte_of_string_of_list_byte. Qed.

End counting.

Section package_facts.

(** Each stage of [deriveSigningKey] is an HMAC of the specification, keyed
    with the stage before it. *)
Lemma deriveSigningKey_locals_chain (awsKey : string) (date : time.Time) (region service : string) :
  let k := deriveSigningKey_locals awsKey date region service in
  kDate k = spec_HMAC (bytes_of_string ("AWS4" +:+ awsKey)) (bytes_of_string (spec_date date))
  /\ kRegion k = spec_HMAC (kDate k) (bytes_of_string region)
  /\ kService k = spec_HMAC (kRegion k) (bytes_of_string service)
  /\ kSigning k = spec_HMAC (kService k) (bytes_of_string terminationString).
Proof.
  unfold deriveSigningKey_locals. cbn [kDate kRegion kService kSigning].
  rewrite !hmac_New_Write_Sum, Format_dateFormat. auto.
Qed.

Lemma stringToSign_layout (timestamp : time.Time) (region service hashed : string) :
  stringToSign timestamp region service hashed
  = algorithm +:+ LF +:+ spec_compact timestamp +:+ LF
      +:+ credentialScope timestamp region service +:+ LF +:+ hashed.
Proof.
  unfold stringToSign, Buffer.String, Buffer.WriteString, Buffer.new.
  rewrite Format_dateTimeFormat, string_app_nil_l. by rewrite !string_app_assoc.
Qed.

(** The value [Sign] appends under [X-Amz-Date]. *)
Lemma Sign_date_header (unicodeLower : string -> string) (signer : Signer) (now : time.Time)
    (request : http.Request) (payload : string) :
  http.Header (Sign unicodeLower signer now request payload) !!! "X-Amz-Date"
  = http.Header request !!! "X-Amz-Date" ++ [time.Format now time.RFC3339].
Proof.
  unfold Sign, Header_Add. cbn [http.Header].
  rewrite lookup_total_Add_ne
    by (rewrite CanonicalMIMEHeaderKey_Authorization; discriminate).
  rewrite <- CanonicalMIMEHeaderKey_dateHeader. apply lookup_total_Add.
Qed.

Lemma Sign_Header (unicodeLower : string -> string) (signer : Signer) (now : time.Time)
    (request : http.Request) (payload : string) :
  http.Header (Sign unicodeLower signer now request payload)
  = textproto.Add (textproto.Add (http.Header request) dateHeader
                     (time.Format now time.RFC3339))
      "Authorization" (authorizationOf unicodeLower signer now request payload).
Proof. reflexivity. Qed.

Lemma canonicalString_layout (unicodeLower : string -> string) (request : http.Request)
    (payload : string) :
  canonicalString unicodeLower request payload
  = http.Method request +:+ LF
      +:+ url.EscapedPath (http.URL request) +:+ LF
      +:+ url.Encode (url.Query (http.URL request)) +:+ LF
      +:+ canonicalHeaders unicodeLower (http.Header request) (http.Host request) +:+ LF
      +:+ hex.EncodeToString (sha256.Sum256 (bytes_of_string payload)).
Proof.
  unfold canonicalString, hashedBody, Buffer.String, Buffer.WriteString, Buffer.new.
  rewrite string_app_nil_l. by rewrite !string_app_assoc.
Qed.

Lemma lastSegment_canonicalString (unicodeLower : string -> string) (request : http.Request)
    (payload : string) :
  lastSegment (canonicalString unicodeLower request payload) = hashedBody payload.
Proof.
  rewrite canonicalString_layout.
  rewrite <- !string_app_assoc. rewrite string_app_assoc.
  apply lastSegment_app, EncodeToString_no_LF.
Qed.

End package_facts.

Section traversal_facts.
Variable unicodeLower : string -> string.

(** The functions of the package are the instances at the order of
    [map_to_list]. *)
Lemma canonicalString_visiting_map_to_list (request : http.Request) (payload : string) :
  canonicalString_visiting unicodeLower (map_to_list (http.Header request)).*1
    (map_to_list (http.Header request)) request payload
  = canonicalString unicodeLower request payload.
Proof. reflexivity. Qed.

Lemma canonicalString_visiting_layout (visitedNames : list string)
    (visitedEntries : list (string * list string)) (request : http.Request) (payload : string) :
  canonicalString_visiting unicodeLower visitedNames visitedEntries request payload
  = http.Method request +:+ LF
      +:+ url.EscapedPath (http.URL request) +:+ LF
      +:+ url.Encode (url.Query (http.URL request)) +:+ LF
      +:+ canonicalHeaders_visiting unicodeLower visitedNames visitedEntries (http.Host request)
      +:+ LF +:+ hex.EncodeToString (sha256.Sum256 (bytes_of_string payload)).
Proof.
  unfold canonicalString_visiting, hashedBody, Buffer.String, Buffer.WriteString, Buffer.new.
  rewrite string_app_nil_l. by rewrite !string_app_assoc.
Qed.

Lemma lastSegment_canonicalString_visiting (visitedNames : list string)
    (visitedEntries : list (string * list string)) (request : http.Request) (payload : string) :
  lastSegment (canonicalString_visiting unicodeLower visitedNames visitedEntries request payload)
  = hex.EncodeToString (sha256.Sum256 (bytes_of_string payload)).
Proof.
  rewrite canonicalString_visiting_layout.
  rewrite <- !string_app_assoc. rewrite string_app_assoc.
  apply lastSegment_app, EncodeToString_no_LF.
Qed.

(** When no two keys lower-case to one name, every order the loops may take
    gives the block of [canonicalHeaders]. *)
Lemma canonicalHeaders_visiting_any_order (header : textproto.MIMEHeader)
    (visitedNames : list string) (visitedEntries : list (string * list string)) (host : string) :
  NoDup (strings.ToLower unicodeLower <$> (map_to_list header).*1) ->
  visits header visitedNames visitedEntries ->
  canonicalHeaders_visiting unicodeLower visitedNames visitedEntries host
  = canonicalHeaders unicodeLower header host.
Proof.
  intros Hnd [Hnames Hentries].
  unfold canonicalHeaders_visiting, canonicalHeaders.
  assert (Hsigned : signedHeaders_visiting unicodeLower visitedNames
                    = signedHeaders unicodeLower header).
  { by apply signedHeaders_any_order. }
  rewrite Hsigned, (lowerCaseHeaders_any_order unicodeLower header visitedEntries Hentries Hnd).
  reflexivity.
Qed.

Lemma canonicalString_visiting_any_order (request : http.Request) (payload : string)
    (visitedNames : list string) (visitedEntries : list (string * list string)) :
  NoDup (strings.ToLower unicodeLower <$> (map_to_list (http.Header request)).*1) ->
  visits (http.Header request) visitedNames visitedEntries ->
  canonicalString_visiting unicodeLower visitedNames visitedEntries request payload
  = canonicalString unicodeLower request payload.
Proof.
  intros Hnd Hvisits.
  rewrite canonicalString_visiting_layout, canonicalString_layout.
  by rewrite (canonicalHeaders_visiting_any_order _ _ _ _ Hnd Hvisits).
Qed.

End traversal_facts.

(** * The claims *)

(** ** C1: the date header and the signed timestamp *)

(** C1 (the code departs from it).  The claim is that the value attached to
    the date header is byte-identical to the compact timestamp
    YYYYMMDDTHHMMSSZ embedded in the string-to-sign.  In the code, for every
    signing call, the value appended to the date header is the [RFC3339]
    rendering YYYY-MM-DDTHH:MM:SSZ, the string-to-sign embeds the compact
    rendering, and the two are never equal. *)
Theorem Sign_date_header_differs_from_signed_timestamp :
  forall (unicodeLower : string -> string) (signer : Signer) (now : time.Time)
         (request : http.Request) (payload : string),
    last (http.Header (Sign unicodeLower signer now request payload) !!! "X-Amz-Date")
      = Some (time.Format now time.RFC3339)
    /\ (forall region service hashed,
          stringToSign now region service hashed
          = algorithm +:+ LF +:+ spec_compact now +:+ LF
              +:+ credentialScope now region service +:+ LF +:+ hashed)
    /\ time.Format now time.RFC3339 <> spec_compact now.
Proof.
  intros ul signer now request payload. split; [|split].
  - rewrite Sign_date_header. apply last_snoc.
  - intros. apply stringToSign_layout.
  - intros Heq. pose proof (RFC3339_longer_than_compact now) as Hlen.
    rewrite Format_dateTimeFormat, Heq in Hlen. lia.
Qed.

(** At the instant of the published example the header carries
    2015-08-30T12:36:00Z while 20150830T123600Z is signed, and the signature
    [Sign] attaches is not the one published for that example. *)
Example Sign_date_header_2015 :
  http.Header (Sign noUnicode exampleSigner testTime readmeRequest "") !! "X-Amz-Date"
  = Some ["2015-08-30T12:36:00Z"]
  /\ spec_compact testTime = "20150830T123600Z"
  /\ http.Header (Sign noUnicode exampleSigner testTime readmeRequest "") !! "Authorization"
     = Some ["AWS4-HMAC-SHA256, Credential=AKIDEXAMPLE/20150830/us-east-1/iam/aws4_request, SignedHeaders=content-type;host;x-amz-date, Signature=8ed5c4cf43361a4bb06298e444da66216a05c32e50d81a0b70364f2300c59805"].
Proof. split; [|split]; vm_compute; reflexivity. Qed.

(** ** C2: the signing key is the four-stage HMAC chain *)

(** C2.  For every secret key, timestamp, region and service, the key
    [deriveSigningKey] returns is the result of the chain
    kDate = HMAC("AWS4" + secret, YYYYMMDD), kRegion = HMAC(kDate, region),
    kService = HMAC(kRegion, service), kSigning = HMAC(kService,
    "aws4_request"), in that order and with every stage present whatever the
    fields are; for the published secret, 2015-08-30, us-east-1 and iam it
    hex-encodes to c4afb1cc...54a4b9. *)
Theorem deriveSigningKey_is_HMAC_chain :
  (forall (secret : string) (timestamp : time.Time) (region service : string),
      deriveSigningKey secret timestamp region service
      = spec_signingKey secret (spec_date timestamp) region service)
  /\ hex.EncodeToString
       (deriveSigningKey "wJalrXUtnFEMI/K7MDENG+bPxRfiCYEXAMPLEKEY" testTime "us-east-1" "iam")
     = "c4afb1cc5771d871763a393e44b703571b55cc28424d1a5e86da6ed3c154a4b9".
Proof.
  split.
  - intros secret timestamp region service.
    destruct (deriveSigningKey_locals_chain secret timestamp region service)
      as (Hd & Hr & Hs & Hk).
    unfold deriveSigningKey, spec_signingKey.
    rewrite Hk, Hs, Hr, Hd. reflexivity.
  - vm_compute. reflexivity.
Qed.

(** ** C3: the published test vector *)

(** C3 (the code departs from it).  The claim is that the pipeline, given
    the published input (GET, path /, query
    Action=ListUsers&Version=2010-05-08, the content-type header, host
    iam.amazonaws.com, empty payload, 2015-08-30T12:36:00Z, us-east-1, iam,
    the published secret), produces the signature 5d672d79...a6f2b5d7.  In
    the code, [Sign] on that input attaches the date header
    2015-08-30T12:36:00Z, signs it, and writes the signature
    8ed5c4cf...00c59805; [AWSSignature] called on the input as listed signs
    no date header and returns 5a72af46...eb6c13c3.  The published signature
    comes out only for a request that carries the date header
    20150830T123600Z of the vector before the call, as the request of the
    package's test does.  The payload-hash segment is the SHA-256 digest of
    zero bytes in each case. *)
Theorem published_signature_needs_compact_date_header :
  forall unicodeLower : string -> string,
    http.Header (Sign unicodeLower exampleSigner testTime readmeRequest "") !! "Authorization"
    = Some ["AWS4-HMAC-SHA256, Credential=AKIDEXAMPLE/20150830/us-east-1/iam/aws4_request, SignedHeaders=content-type;host;x-amz-date, Signature=8ed5c4cf43361a4bb06298e444da66216a05c32e50d81a0b70364f2300c59805"]
    /\ AWSSignature unicodeLower readmeRequest "" testTime "us-east-1" "iam"
                    "wJalrXUtnFEMI/K7MDENG+bPxRfiCYEXAMPLEKEY"
       = "5a72af46c42ac93243eb1fb3ff835cecc646f87b1f4fb17b819ecb50eb6c13c3"
    /\ AWSSignature unicodeLower fakeRequest "" testTime "us-east-1" "iam"
                    "wJalrXUtnFEMI/K7MDENG+bPxRfiCYEXAMPLEKEY"
       = "5d672d79c15b13162d9279b0855cfba6789a8edb4c82c400e06b5924a6f2b5d7"
    /\ canonicalString unicodeLower fakeRequest "" = expectedCanonicalString
    /\ http.Header fakeRequest !! "X-Amz-Date" = Some ["20150830T123600Z"]
    /\ http.Header readmeRequest !! "X-Amz-Date" = None
    /\ lastSegment (canonicalString unicodeLower readmeRequest "")
       = "e3b0c44298fc1c149afbf4c8996fb92427ae41e4649b934ca495991b7852b855"
    /\ lastSegment
         (canonicalString unicodeLower
            (Header_Add readmeRequest dateHeader (time.Format testTime time.RFC3339)) "")
       = "e3b0c44298fc1c149afbf4c8996fb92427ae41e4649b934ca495991b7852b855".
Proof.
  intros ul.
  assert (Hc : canonicalString ul fakeRequest "" = expectedCanonicalString)
    by (vm_compute; reflexivity).
  assert (Hempty : hashedBody ""
                   = "e3b0c44298fc1c149afbf4c8996fb92427ae41e4649b934ca495991b7852b855")
    by (vm_compute; reflexivity).
  split; [vm_compute; reflexivity|].
  split; [vm_compute; reflexivity|].
  split; [unfold AWSSignature; rewrite Hc; vm_compute; reflexivity|].
  split; [exact Hc|].
  split; [vm_compute; reflexivity|].
  split; [vm_compute; reflexivity|].
  split; rewrite lastSegment_canonicalString; exact Hempty.
Qed.

(** ** C4: host in the signed-header list *)

(** C4 (the code departs from it).  The claim is that [host] is in the
    signed-header list exactly once for every header map.  In the code the
    sorted list of signed names holds [host] once for the entry
    [signedHeaders] appends and once more for every key of the caller's map
    that lower-cases to [host]: with a [Host] entry in the map the list is
    "host;host", and the canonical headers block has the host line twice
    (both with the transport host). *)
Theorem signedHeaders_repeats_supplied_host :
  (forall (unicodeLower : string -> string) (header : textproto.MIMEHeader),
      length (filter (fun name => name = hostHeader)
                (sort.Strings ((strings.ToLower unicodeLower <$> (map_to_list header).*1)
                                 ++ [hostHeader])))
      = S (length (filter (fun name => strings.ToLower unicodeLower name = hostHeader)
                     (map_to_list header).*1)))
  /\ forall unicodeLower : string -> string,
       signedHeaders unicodeLower {["Host" := ["attacker.example"]]} = "host;host"
       /\ canonicalHeaders unicodeLower {["Host" := ["attacker.example"]]} "iam.amazonaws.com"
          = "host:iam.amazonaws.com" +:+ LF +:+ "host:iam.amazonaws.com" +:+ LF +:+ LF
              +:+ "host;host".
Proof.
  split.
  - intros ul header. apply signedHeaders_host_count.
  - intros ul. split; vm_compute; reflexivity.
Qed.

(** ** C5: the canonical request and its query segment *)

(** C5 (the code departs from it).  The claim is that the canonical request
    is the method, the escaped path, the query segment, the canonical
    headers block and the hex SHA-256 of the payload, joined by single line
    feeds with none at the end, and that the query segment is the
    parameters percent-encoded, sorted by name with ties broken by value,
    joined as name=value pairs with "&", the empty string for no
    parameter.  The five segments and the empty query are as claimed, for
    every request and payload.  The query segment is not: [canonicalString]
    writes [url.Values.Encode], which escapes names and values as
    [url.QueryEscape] does (a space becomes "+"), puts the names in the
    increasing order of their unescaped form, and keeps the values of one
    name in the order of the query.  So the query a=2&a=1 is written
    a=2&a=1 (claimed: a=1&a=2), the query q=x%20y is written q=x+y (claimed:
    q=x%20y), and the query a%2Fb=2&a-b=1 is written a-b=1&a%2Fb=2 (claimed,
    sorted as encoded: a%2Fb=2&a-b=1). *)
Theorem canonicalString_segments :
  (forall (unicodeLower : string -> string) (request : http.Request) (payload : string),
      let query := url.Query (http.URL request) in
      canonicalString unicodeLower request payload
      = http.Method request +:+ LF
          +:+ url.EscapedPath (http.URL request) +:+ LF
          +:+ url.Encode query +:+ LF
          +:+ canonicalHeaders unicodeLower (http.Header request) (http.Host request) +:+ LF
          +:+ hex.EncodeToString (sha256.Sum256 (bytes_of_string payload))
      /\ lastSegment (canonicalString unicodeLower request payload)
         = hex.EncodeToString (sha256.Sum256 (bytes_of_string payload))
      /\ String.length (hex.EncodeToString (sha256.Sum256 (bytes_of_string payload))) = 64
      /\ (exists params : list (string * string),
            url.Encode query = strings.Join (renderParam <$> params) "&"
            /\ StronglySorted (fun p q => String.le p.1 q.1) params
            /\ forall name, (filter (fun p => p.1 = name) params).*2 = query !!! name))
  /\ url.Encode ∅ = ""
  /\ (forall unicodeLower : string -> string,
        canonicalString unicodeLower
          (http.mkRequest "GET" (url.mkURL "/" "" "a=2&a=1") ∅ "example.com" []) ""
        = "GET" +:+ LF +:+ "/" +:+ LF +:+ "a=2&a=1" +:+ LF
            +:+ ("host:example.com" +:+ LF +:+ LF +:+ "host") +:+ LF
            +:+ "e3b0c44298fc1c149afbf4c8996fb92427ae41e4649b934ca495991b7852b855")
  /\ spec_canonicalQuery (url.Query (url.mkURL "/" "" "a=2&a=1")) = "a=1&a=2"
  /\ url.Encode (url.Query (url.mkURL "/" "" "q=x%20y")) = "q=x+y"
  /\ spec_canonicalQuery (url.Query (url.mkURL "/" "" "q=x%20y")) = "q=x%20y"
  /\ url.Encode (url.Query (url.mkURL "/" "" "a%2Fb=2&a-b=1")) = "a-b=1&a%2Fb=2"
  /\ spec_canonicalQuery (url.Query (url.mkURL "/" "" "a%2Fb=2&a-b=1")) = "a%2Fb=2&a-b=1".
Proof.
  split.
  { intros ul request payload query.
    split; [apply canonicalString_layout|].
    split; [apply lastSegment_canonicalString|].
    split; [by rewrite length_EncodeToString, length_Sum256|].
    exists (paramsOf query). split; [apply Encode_paramsOf|].
    split; [apply paramsOf_sorted|]. intros name. apply paramsOf_values. }
  split; [reflexivity|].
  split; [intros ul; vm_compute; reflexivity|].
  split; [vm_compute; reflexivity|].
  split; [vm_compute; reflexivity|].
  split; [vm_compute; reflexivity|].
  split; vm_compute; reflexivity.
Qed.

(** ** C6: changing the service only *)

(** The claim of C6 does not hold for every pair of distinct services: a
    [kService] has 32 bytes, and there are more services than 32-byte
    strings, so two distinct services have the same [kService]. *)
Lemma kService_not_injective :
  ~ (forall (secret : string) (date : time.Time) (region s1 s2 : string),
        s1 <> s2 ->
        let k1 := deriveSigningKey_locals secret date region s1 in
        let k2 := deriveSigningKey_locals secret date region s2 in
        kDate k1 = kDate k2 /\ kRegion k1 = kRegion k2
        /\ kService k1 <> kService k2 /\ kSigning k1 <> kSigning k2).
Proof.
  intros Hclaim.
  set (g := fun w : list byte =>
              kService (deriveSigningKey_locals "" testTime "" (string_of_bytes w))).
  apply (no_injection_into_fixed_length sha256.Size g).
  - intros w. subst g. cbv beta.
    unfold deriveSigningKey_locals. cbn [kService]. apply length_hmac_Sum.
  - intros w1 w2 Hg.
    destruct (decide (string_of_bytes w1 = string_of_bytes w2)) as [Heq|Hne].
    + rewrite <- (bytes_of_string_of_bytes w1), <- (bytes_of_string_of_bytes w2).
      by rewrite Heq.
    + destruct (Hclaim "" testTime "" _ _ Hne) as (_ & _ & Hs & _).
      exfalso. apply Hs. exact Hg.
Qed.

(** C6, amended.  For every secret key, date and region and every two
    services, the two derivations have the same [kDate] and the same
    [kRegion]; each [kService] is the HMAC of its service under that common
    [kRegion], and the two [kSigning] differ only if the two [kService] do.
    For the services iam and s3 of the published example both [kService] and
    [kSigning] differ. *)
Theorem service_changes_only_kService_and_kSigning :
  (forall (secret : string) (date : time.Time) (region s1 s2 : string),
      let k1 := deriveSigningKey_locals secret date region s1 in
      let k2 := deriveSigningKey_locals secret date region s2 in
      kDate k1 = kDate k2 /\ kRegion k1 = kRegion k2
      /\ kService k1 = spec_HMAC (kRegion k1) (bytes_of_string s1)
      /\ kService k2 = spec_HMAC (kRegion k1) (bytes_of_string s2)
      /\ (kSigning k1 <> kSigning k2 -> kService k1 <> kService k2))
  /\ kDate iamKeys = kDate s3Keys /\ kRegion iamKeys = kRegion s3Keys
  /\ kService iamKeys <> kService s3Keys /\ kSigning iamKeys <> kSigning s3Keys.
Proof.
  split.
  - intros secret date region s1 s2. cbv zeta.
    destruct (deriveSigningKey_locals_chain secret date region s1) as (Hd1 & Hr1 & Hs1 & Hk1).
    destruct (deriveSigningKey_locals_chain secret date region s2) as (Hd2 & Hr2 & Hs2 & Hk2).
    cbv zeta in *.
    assert (HD : kDate (deriveSigningKey_locals secret date region s1)
                 = kDate (deriveSigningKey_locals secret date region s2)) by congruence.
    assert (HR : kRegion (deriveSigningKey_locals secret date region s1)
                 = kRegion (deriveSigningKey_locals secret date region s2)) by congruence.
    split; [exact HD|]. split; [exact HR|]. split; [exact Hs1|].
    split; [rewrite HR; exact Hs2|].
    intros Hne Heq. apply Hne. rewrite Hk1, Hk2, Heq. reflexivity.
  - split; [vm_compute; reflexivity|]. split; [vm_compute; reflexivity|].
    split; vm_compute; discriminate.
Qed.

(** ** C7: the signed-header list computed again *)

(** C7 (the code departs from it).  The claim is that computing the
    signed-header list again from the names of its own output gives the same
    list.  For a map with the one header [Content-Type] the list is
    "content-type;host"; computed again from the names content-type and host
    it is "content-type;host;host". *)
Theorem signedHeaders_not_idempotent :
  forall unicodeLower : string -> string,
    let first := signedHeaders unicodeLower {["Content-Type" := ["text/plain"]]} in
    let again := signedHeaders unicodeLower (headerSetOf (strings.Split first ";")) in
    first = "content-type;host" /\ again = "content-type;host;host" /\ again <> first.
Proof.
  intros ul. cbv zeta. split; [|split].
  - vm_compute. reflexivity.
  - vm_compute. reflexivity.
  - vm_compute. discriminate.
Qed.

(** ** C8: an empty path *)

(** For the request with an empty path the claim of C8 expects a failure.
    [Sign] has no failure result: the canonical request is built with an empty
    path segment, and the request comes back with an [Authorization] header
    that carries a signature. *)
Lemma Sign_signs_emptyPathRequest :
  canonicalString noUnicode emptyPathRequest ""
  = "GET" +:+ LF +:+ "" +:+ LF +:+ "" +:+ LF
      +:+ ("host:example.com" +:+ LF +:+ LF +:+ "host") +:+ LF
      +:+ "e3b0c44298fc1c149afbf4c8996fb92427ae41e4649b934ca495991b7852b855"
  /\ http.Header (Sign noUnicode exampleSigner testTime emptyPathRequest "") !! "Authorization"
     = Some ["AWS4-HMAC-SHA256, Credential=AKIDEXAMPLE/20150830/us-east-1/iam/aws4_request, SignedHeaders=host;x-amz-date, Signature=42817bb591e94c4108ef3ba45374563a2f6ffe6d4a6764bf91f8881ec879a973"].
Proof. split; vm_compute; reflexivity. Qed.

(** C8, amended.  For every request whose path is empty (its URL and
    headers present, as [http.NewRequest] makes them) the signing operation
    surfaces no failure and does not correct the input: [Sign] has no
    result value, it leaves the URL of the request as it is, the path still
    empty, and it appends an [Authorization] header whose signature has 64
    characters. *)
Theorem Sign_accepts_empty_path :
  forall (unicodeLower : string -> string) (signer : Signer) (now : time.Time)
         (request : http.Request) (payload : string),
    url.Path (http.URL request) = "" ->
    let signed := Sign unicodeLower signer now request payload in
    http.URL signed = http.URL request
    /\ url.Path (http.URL signed) = ""
    /\ exists credential signedNames signature : string,
         String.length signature = 64
         /\ last (http.Header signed !!! "Authorization")
            = Some (algorithm +:+ ", Credential=" +:+ credential +:+ ", SignedHeaders="
                      +:+ signedNames +:+ ", Signature=" +:+ signature).
Proof.
  intros ul signer now request payload Hpath signed. subst signed.
  split; [reflexivity|]. split; [exact Hpath|].
  eexists _, _, _. split; [|].
  2: { rewrite Sign_Header.
       rewrite <- CanonicalMIMEHeaderKey_Authorization at 1.
       rewrite lookup_total_Add, last_snoc. unfold authorizationOf. reflexivity. }
  unfold AWSSignature. apply length_calculateSignature.
Qed.

Lemma Sign_accepts_empty_path_witness :
  url.Path (http.URL emptyPathRequest) = ""
  /\ let signed := Sign noUnicode exampleSigner testTime emptyPathRequest "" in
     http.URL signed = http.URL emptyPathRequest
     /\ url.Path (http.URL signed) = ""
     /\ exists credential signedNames signature : string,
          String.length signature = 64
          /\ last (http.Header signed !!! "Authorization")
             = Some (algorithm +:+ ", Credential=" +:+ credential +:+ ", SignedHeaders="
                       +:+ signedNames +:+ ", Signature=" +:+ signature).
Proof.
  split; [reflexivity|].
  apply (Sign_accepts_empty_path noUnicode exampleSigner testTime emptyPathRequest "").
  reflexivity.
Defined.

(** ** C9: what [Sign] changes in the request *)

(** C9.  For every request, payload and credentials, [Sign] leaves the
    method, URL, body and host of the request as they were, leaves every
    header entry other than [X-Amz-Date] and [Authorization] as it was, and
    appends one value to each of these two entries. *)
Theorem Sign_only_appends_two_headers :
  forall (unicodeLower : string -> string) (signer : Signer) (now : time.Time)
         (request : http.Request) (payload : string),
    let signed := Sign unicodeLower signer now request payload in
    http.Method signed = http.Method request
    /\ http.URL signed = http.URL request
    /\ http.Body signed = http.Body request
    /\ http.Host signed = http.Host request
    /\ (forall name, name <> "X-Amz-Date" -> name <> "Authorization" ->
          http.Header signed !! name = http.Header request !! name)
    /\ http.Header signed !! "X-Amz-Date"
       = Some (http.Header request !!! "X-Amz-Date" ++ [time.Format now time.RFC3339])
    /\ http.Header signed !! "Authorization"
       = Some (http.Header request !!! "Authorization"
                 ++ [authorizationOf unicodeLower signer now request payload]).
Proof.
  intros ul signer now request payload signed. subst signed.
  repeat split.
  - intros name Hd Ha. rewrite Sign_Header.
    rewrite lookup_Add_ne by (rewrite CanonicalMIMEHeaderKey_Authorization; congruence).
    apply lookup_Add_ne. rewrite CanonicalMIMEHeaderKey_dateHeader. congruence.
  - rewrite Sign_Header.
    rewrite lookup_Add_ne by (rewrite CanonicalMIMEHeaderKey_Authorization; discriminate).
    rewrite <- CanonicalMIMEHeaderKey_dateHeader. apply lookup_Add.
  - rewrite Sign_Header.
    rewrite <- CanonicalMIMEHeaderKey_Authorization at 1. rewrite lookup_Add.
    rewrite CanonicalMIMEHeaderKey_Authorization.
    rewrite lookup_total_Add_ne
      by (rewrite CanonicalMIMEHeaderKey_dateHeader; discriminate).
    reflexivity.
Qed.

(** The content-type entry of the test request survives signing. *)
Lemma Sign_only_appends_two_headers_witness :
  http.Header (Sign noUnicode exampleSigner testTime fakeRequest "") !! "Content-Type"
  = http.Header fakeRequest !! "Content-Type".
Proof.
  apply (proj1 (proj2 (proj2 (proj2 (proj2
           (Sign_only_appends_two_headers noUnicode exampleSigner testTime fakeRequest "")))))).
  - discriminate.
  - discriminate.
Defined.

(** ** C10: the payload hash reads the payload argument only *)

(** The claim of C10 says that two requests that differ in their body only
    yield identical canonical requests.  Go does not fix the order in which
    the header map is visited, and when two keys lower-case to one name the
    canonical request depends on it: for the header with the keys "A" and
    "a", two orders the loops may take give two different canonical
    requests, whatever the bodies are. *)
Lemma canonicalString_depends_on_visit_order :
  exists (names1 names2 : list string) (entries1 entries2 : list (string * list string)),
    visits (http.Header collidingRequest) names1 entries1
    /\ visits (http.Header collidingRequest) names2 entries2
    /\ canonicalString_visiting noUnicode names1 entries1
         (withBody collidingRequest [byte_of_Z 1]) ""
       <> canonicalString_visiting noUnicode names2 entries2 collidingRequest "".
Proof.
  exists (map_to_list (http.Header collidingRequest)).*1,
         (reverse (map_to_list (http.Header collidingRequest))).*1,
         (map_to_list (http.Header collidingRequest)),
         (reverse (map_to_list (http.Header collidingRequest))).
  split; [split; reflexivity|].
  split; [split; [apply fmap_Permutation|]; apply reverse_Permutation|].
  rewrite !canonicalString_visiting_layout. intros Heq.
  vm_compute in Heq. discriminate Heq.
Qed.

(** C10, amended.  For every request and payload string, and whatever order
    the header map is visited in, the payload-hash segment of the canonical
    request is the hex SHA-256 of the payload argument, and a request that
    differs in its body only has the same canonical request and the same
    signature in that order: the body is never read.  When no two keys of
    the header lower-case to one name, the two requests have the same
    canonical request and the same signature in any two orders.  For the
    empty payload the segment is the digest of zero bytes whatever the body
    is. *)
Theorem payload_hash_ignores_Body :
  forall (unicodeLower : string -> string) (request : http.Request) (body : list byte)
         (payload : string) (timestamp : time.Time) (region service key : string),
    (forall (visitedNames : list string) (visitedEntries : list (string * list string)),
        lastSegment
          (canonicalString_visiting unicodeLower visitedNames visitedEntries request payload)
        = hex.EncodeToString (sha256.Sum256 (bytes_of_string payload))
        /\ canonicalString_visiting unicodeLower visitedNames visitedEntries
             (withBody request body) payload
           = canonicalString_visiting unicodeLower visitedNames visitedEntries request payload
        /\ AWSSignature_visiting unicodeLower visitedNames visitedEntries
             (withBody request body) payload timestamp region service key
           = AWSSignature_visiting unicodeLower visitedNames visitedEntries
               request payload timestamp region service key
        /\ lastSegment
             (canonicalString_visiting unicodeLower visitedNames visitedEntries
                (withBody request body) "")
           = "e3b0c44298fc1c149afbf4c8996fb92427ae41e4649b934ca495991b7852b855")
    /\ (NoDup (strings.ToLower unicodeLower <$> (map_to_list (http.Header request)).*1) ->
        forall (names1 names2 : list string) (entries1 entries2 : list (string * list string)),
          visits (http.Header request) names1 entries1 ->
          visits (http.Header request) names2 entries2 ->
          canonicalString_visiting unicodeLower names1 entries1 (withBody request body) payload
          = canonicalString_visiting unicodeLower names2 entries2 request payload
          /\ AWSSignature_visiting unicodeLower names1 entries1
               (withBody request body) payload timestamp region service key
             = AWSSignature_visiting unicodeLower names2 entries2
                 request payload timestamp region service key).
Proof.
  intros ul request body payload timestamp region service key. split.
  - intros visitedNames visitedEntries.
    assert (Hsame : forall p, canonicalString_visiting ul visitedNames visitedEntries
                                (withBody request body) p
                              = canonicalString_visiting ul visitedNames visitedEntries
                                  request p).
    { intros p. rewrite !canonicalString_visiting_layout. reflexivity. }
    split; [apply lastSegment_canonicalString_visiting|].
    split; [apply Hsame|].
    split.
    + unfold AWSSignature_visiting. by rewrite Hsame.
    + rewrite lastSegment_canonicalString_visiting. vm_compute. reflexivity.
  - intros Hnd names1 names2 entries1 entries2 Hv1 Hv2.
    assert (Hsame : canonicalString_visiting ul names1 entries1 (withBody request body) payload
                    = canonicalString_visiting ul names2 entries2 request payload).
    { rewrite (canonicalString_visiting_any_order ul (withBody request body) payload
                 names1 entries1 Hnd Hv1).
      rewrite (canonicalString_visiting_any_order ul request payload names2 entries2 Hnd Hv2).
      rewrite !canonicalString_layout. reflexivity. }
    split; [exact Hsame|]. unfold AWSSignature_visiting. by rewrite Hsame.
Qed.

(** * Further properties of the package *)

Section more_string_facts.

Lemma string_forallb_app (p : ascii -> bool) (a b : string) :
  string_forallb p (a +:+ b) = string_forallb p a && string_forallb p b.
Proof.
  induction a as [|c a IH]; [reflexivity|].
  rewrite string_app_cons. cbn [string_forallb]. rewrite IH. by rewrite andb_assoc.
Qed.

(** A string all of whose bytes satisfy [p] has no byte that satisfies [q],
    when no byte satisfies both. *)
Lemma string_forallb_existsb (p q : ascii -> bool) (s : string) :
  (forall c, p c = true -> q c = false) ->
  string_forallb p s = true -> string_existsb q s = false.
Proof.
  intros Hpq. induction s as [|c s IH]; [reflexivity|].
  cbn [string_forallb string_existsb]. intros H. apply andb_true_iff in H as [Hc Hs].
  by rewrite (Hpq c Hc), (IH Hs).
Qed.

Lemma string_existsb_Join (p : ascii -> bool) (elems : list string) (sep : string) :
  Forall (fun e => string_existsb p e = false) elems ->
  string_existsb p sep = false ->
  string_existsb p (strings.Join elems sep) = false.
Proof.
  intros Hall Hsep. induction Hall as [|e elems He Hall IH]; [reflexivity|].
  destruct elems as [|e' elems]; [exact He|].
  change (strings.Join (e :: e' :: elems) sep)
    with (e +:+ sep +:+ strings.Join (e' :: elems) sep).
  by rewrite !string_existsb_app, He, Hsep, IH.
Qed.

Lemma string_forallb_Join (p : ascii -> bool) (elems : list string) (sep : string) :
  Forall (fun e => string_forallb p e = true) elems ->
  string_forallb p sep = true ->
  string_forallb p (strings.Join elems sep) = true.
Proof.
  intros Hall Hsep. induction Hall as [|e elems He Hall IH]; [reflexivity|].
  destruct elems as [|e' elems]; [exact He|].
  change (strings.Join (e :: e' :: elems) sep)
    with (e +:+ sep +:+ strings.Join (e' :: elems) sep).
  by rewrite !string_forallb_app, He, Hsep, IH.
Qed.

Lemma hex_digit_lower (n : N) : isHexLower (hex.digit n) = true.
Proof.
  unfold hex.digit.
  assert (H : forall k, isHexLower (nth k hex.hextable "0"%char) = true).
  { intros k. do 17 (destruct k as [|k]; [reflexivity|]). reflexivity. }
  apply H.
Qed.

Lemma EncodeToString_lower_hex (b : list byte) :
  string_forallb isHexLower (hex.EncodeToString b) = true.
Proof.
  induction b as [|v b IH]; [reflexivity|].
  cbn [hex.EncodeToString string_forallb]. by rewrite !hex_digit_lower, IH.
Qed.

(** [Split] at a one-byte separator, in general. *)
Lemma Split_from_no_byte (c : ascii) (a cur rest : string) :
  string_existsb (Ascii.eqb c) a = false ->
  strings.Split_from (String c "") 0 cur (a +:+ rest)
  = strings.Split_from (String c "") 0 (String.rev_app a cur) rest.
Proof.
  revert cur. induction a as [|x a IH]; intros cur Ha; [reflexivity|].
  cbn [string_existsb] in Ha. apply orb_false_iff in Ha as [Hx Ha].
  rewrite string_app_cons. cbn [strings.Split_from String.rev_app].
  rewrite prefix_byte, Ascii.eqb_sym, Hx. apply IH, Ha.
Qed.

(** Splitting at a byte undoes joining with it, for elements without it. *)
Lemma Split_Join_byte (c : ascii) (elems : list string) :
  elems <> [] ->
  Forall (fun e => string_existsb (Ascii.eqb c) e = false) elems ->
  strings.Split (strings.Join elems (String c "")) (String c "") = elems.
Proof.
  unfold strings.Split.
  induction elems as [|a elems IH]; [done|]. intros _ Hall.
  apply Forall_cons in Hall as [Ha Hall].
  destruct elems as [|b elems].
  - cbn [strings.Join]. rewrite <- (string_app_nil_r a) at 1.
    rewrite (Split_from_no_byte c a "" "" Ha). cbn [strings.Split_from].
    by rewrite rev_rev_app.
  - change (strings.Join (a :: b :: elems) (String c ""))
      with (a +:+ String c (strings.Join (b :: elems) (String c ""))).
    rewrite (Split_from_no_byte c a "" _ Ha). cbn [strings.Split_from].
    rewrite prefix_byte, Ascii.eqb_refl, rev_rev_app. cbn [String.length Nat.sub].
    f_equal. apply IH; [discriminate|exact Hall].
Qed.

End more_string_facts.

Section more_time_facts.

Lemma digit_char (u : Z) : isDigit09 (ascii_of_N (48 + Z.to_N (u mod 10))) = true.
Proof.
  pose proof (Z.mod_pos_bound u 10 ltac:(lia)) as Hk.
  assert (Hcases : (u mod 10 = 0 \/ u mod 10 = 1 \/ u mod 10 = 2 \/ u mod 10 = 3
                    \/ u mod 10 = 4 \/ u mod 10 = 5 \/ u mod 10 = 6 \/ u mod 10 = 7
                    \/ u mod 10 = 8 \/ u mod 10 = 9)%Z) by lia.
  destruct Hcases as [->|[->|[->|[->|[->|[->|[->|[->|[->| ->]]]]]]]]]; reflexivity.
Qed.

Lemma digits_chars (fuel : nat) (u : Z) (acc : string) :
  string_forallb isDigitOrMinus acc = true ->
  string_forallb isDigitOrMinus (time.digits fuel u acc) = true.
Proof.
  revert u acc. induction fuel as [|fuel IH]; intros u acc Hacc; [exact Hacc|].
  cbn [time.digits].
  assert (Hacc' : string_forallb isDigitOrMinus
                    (String (ascii_of_N (48 + Z.to_N (u mod 10))) acc) = true).
  { cbn [string_forallb]. unfold isDigitOrMinus at 1. by rewrite digit_char, Hacc. }
  destruct (u <? 10)%Z; [exact Hacc'|]. by apply IH.
Qed.

Lemma string_of_zeros_chars (n : nat) :
  string_forallb isDigitOrMinus (String.string_of_list_ascii (replicate n "0"%char)) = true.
Proof. induction n as [|n IH]; [reflexivity|]. cbn. exact IH. Qed.

(** A calendar field is written with decimal digits and, for a negative
    number, a minus sign: no other byte. *)
Lemma spec_field_chars (x : Z) (width : nat) :
  string_forallb isDigitOrMinus (spec_field x width) = true.
Proof.
  unfold spec_field, time.appendInt.
  rewrite !string_forallb_app, string_of_zeros_chars.
  unfold time.decimal. rewrite digits_chars by reflexivity.
  by destruct (x <? 0)%Z.
Qed.

Lemma spec_date_chars (t : time.Time) : string_forallb isDigitOrMinus (spec_date t) = true.
Proof. unfold spec_date. by rewrite !string_forallb_app, !spec_field_chars. Qed.

End more_time_facts.

Section more_package_facts.

Lemma string_existsb_ext (p q : ascii -> bool) (s : string) :
  (forall c, p c = q c) -> string_existsb p s = string_existsb q s.
Proof.
  intros Hpq. induction s as [|c s IH]; [reflexivity|].
  cbn [string_existsb]. by rewrite Hpq, IH.
Qed.

Lemma calculateSignature_spec (signingKey : list byte) (stringToSign : string) :
  calculateSignature signingKey stringToSign
  = hex.EncodeToString (spec_HMAC signingKey (bytes_of_string stringToSign)).
Proof. unfold calculateSignature. by rewrite hmac_New_Write_Sum. Qed.

Lemma deriveSigningKey_spec (awsKey : string) (date : time.Time) (region service : string) :
  deriveSigningKey awsKey date region service
  = spec_signingKey awsKey (spec_date date) region service.
Proof.
  destruct (deriveSigningKey_locals_chain awsKey date region service) as (Hd & Hr & Hs & Hk).
  unfold deriveSigningKey, spec_signingKey. rewrite Hk, Hs, Hr, Hd. reflexivity.
Qed.

Lemma credentialScope_Join (timestamp : time.Time) (region service : string) :
  credentialScope timestamp region service
  = strings.Join [spec_date timestamp; region; service; terminationString] "/".
Proof. unfold credentialScope. rewrite Format_dateFormat. reflexivity. Qed.

Lemma stringToSign_Join (timestamp : time.Time) (region service hashed : string) :
  stringToSign timestamp region service hashed
  = strings.Join [algorithm; spec_compact timestamp;
                  credentialScope timestamp region service; hashed] LF.
Proof. rewrite stringToSign_layout. reflexivity. Qed.

Lemma spec_date_no_slash (t : time.Time) :
  string_existsb (Ascii.eqb "/") (spec_date t) = false.
Proof.
  apply (string_forallb_existsb isDigitOrMinus); [|apply spec_date_chars].
  intros c Hc. destruct (Ascii.eqb_spec "/" c) as [<-|]; [discriminate Hc|reflexivity].
Qed.

Lemma spec_date_no_LF (t : time.Time) : string_existsb isLF (spec_date t) = false.
Proof.
  apply (string_forallb_existsb isDigitOrMinus); [|apply spec_date_chars].
  intros c Hc. unfold isLF.
  destruct (Ascii.eqb_spec c (ascii_of_nat 10)) as [->|]; [discriminate Hc|reflexivity].
Qed.

Lemma spec_compact_no_LF (t : time.Time) : string_existsb isLF (spec_compact t) = false.
Proof.
  unfold spec_compact. rewrite !string_existsb_app, spec_date_no_LF.
  assert (Hf : forall x w, string_existsb isLF (spec_field x w) = false).
  { intros x w. apply (string_forallb_existsb isDigitOrMinus); [|apply spec_field_chars].
    intros c Hc. unfold isLF.
    destruct (Ascii.eqb_spec c (ascii_of_nat 10)) as [->|]; [discriminate Hc|reflexivity]. }
  by rewrite !Hf.
Qed.

End more_package_facts.

(** ** The signature and the keys *)

(** X1.  [calculateSignature] returns the lower-case hexadecimal encoding of
    HMAC-SHA256(signing key, string to sign), the HMAC being the one of RFC
    2104: the result has 64 characters whatever the key and the message
    are. *)
Theorem calculateSignature_is_hex_HMAC :
  forall (signingKey : list byte) (stringToSign : string),
    calculateSignature signingKey stringToSign
    = hex.EncodeToString (spec_HMAC signingKey (bytes_of_string stringToSign))
    /\ String.length (calculateSignature signingKey stringToSign) = 64
    /\ string_forallb isHexLower (calculateSignature signingKey stringToSign) = true.
Proof.
  intros key s. split; [apply calculateSignature_spec|]. split.
  - apply length_calculateSignature.
  - unfold calculateSignature. apply EncodeToString_lower_hex.
Qed.

(** X2.  [AWSSignature] composes the stages as the signing process has
    them: the signature is hex(HMAC(signing key, string to sign)), where the
    signing key is the four-stage chain over the date of the timestamp, the
    region and the service, and the string to sign is the algorithm, the
    compact timestamp, the scope date/region/service/aws4_request and the hex
    SHA-256 of the canonical request, one a line. *)
Theorem AWSSignature_composition :
  forall (unicodeLower : string -> string) (request : http.Request) (payload : string)
         (timestamp : time.Time) (region service key : string),
    AWSSignature unicodeLower request payload timestamp region service key
    = hex.EncodeToString
        (spec_HMAC
           (spec_signingKey key (spec_date timestamp) region service)
           (bytes_of_string
              (algorithm +:+ LF +:+ spec_compact timestamp +:+ LF
                 +:+ (spec_date timestamp +:+ "/" +:+ region +:+ "/" +:+ service
                        +:+ "/" +:+ "aws4_request") +:+ LF
                 +:+ hex.EncodeToString
                       (sha256.Sum256
                          (bytes_of_string (canonicalString unicodeLower request payload)))))).
Proof.
  intros ul request payload timestamp region service key.
  unfold AWSSignature.
  rewrite calculateSignature_spec, deriveSigningKey_spec, stringToSign_layout.
  unfold credentialScope. rewrite Format_dateFormat. reflexivity.
Qed.

(** X3.  Every digest the package writes as text is 64 lower-case
    hexadecimal digits: the payload hash [hashedBody] for every payload, and
    the signature [AWSSignature] for every request, payload, timestamp and
    credentials. *)
Theorem hex_outputs_have_64_digits :
  forall (unicodeLower : string -> string) (request : http.Request) (payload : string)
         (timestamp : time.Time) (region service key : string),
    String.length (hashedBody payload) = 64
    /\ string_forallb isHexLower (hashedBody payload) = true
    /\ String.length
         (AWSSignature unicodeLower request payload timestamp region service key) = 64
    /\ string_forallb isHexLower
         (AWSSignature unicodeLower request payload timestamp region service key) = true.
Proof.
  intros ul request payload timestamp region service key.
  split; [unfold hashedBody; by rewrite length_EncodeToString, length_Sum256|].
  split; [apply EncodeToString_lower_hex|].
  unfold AWSSignature. split; [apply length_calculateSignature|].
  unfold calculateSignature. apply EncodeToString_lower_hex.
Qed.

(** X4.  Every key of the derivation chain has 32 bytes, whatever the
    secret, the date, the region and the service are (also when they are
    empty or longer than a hash block). *)
Theorem deriveSigningKey_keys_have_32_bytes :
  forall (awsKey : string) (date : time.Time) (region service : string),
    let k := deriveSigningKey_locals awsKey date region service in
    length (kDate k) = 32 /\ length (kRegion k) = 32 /\ length (kService k) = 32
    /\ length (kSigning k) = 32
    /\ length (deriveSigningKey awsKey date region service) = 32.
Proof.
  intros awsKey date region service. cbv zeta.
  unfold deriveSigningKey, deriveSigningKey_locals. cbn [kDate kRegion kService kSigning].
  split; [apply length_hmac_Sum|]. split; [apply length_hmac_Sum|].
  split; [apply length_hmac_Sum|]. split; apply length_hmac_Sum.
Qed.

(** X5.  The signing key and the credential scope depend on the timestamp
    through its calendar day only: two timestamps of the same year, month
    and day give the same key and the same scope, whatever their time of day
    is. *)
Theorem signing_key_is_per_day :
  forall (awsKey region service : string) (t1 t2 : time.Time),
    time.Year t1 = time.Year t2 ->
    time.Month t1 = time.Month t2 ->
    time.Day t1 = time.Day t2 ->
    deriveSigningKey awsKey t1 region service = deriveSigningKey awsKey t2 region service
    /\ credentialScope t1 region service = credentialScope t2 region service.
Proof.
  intros awsKey region service t1 t2 HY HM HD.
  assert (Hdate : spec_date t1 = spec_date t2).
  { unfold spec_date. by rewrite HY, HM, HD. }
  split.
  - by rewrite !deriveSigningKey_spec, Hdate.
  - by rewrite !credentialScope_Join, Hdate.
Qed.

Lemma signing_key_is_per_day_witness :
  deriveSigningKey "secret" testTime "us-east-1" "iam"
  = deriveSigningKey "secret" (time.Date 2015 8 30 23 59 59) "us-east-1" "iam"
  /\ credentialScope testTime "us-east-1" "iam"
     = credentialScope (time.Date 2015 8 30 23 59 59) "us-east-1" "iam".
Proof.
  apply (signing_key_is_per_day "secret" "us-east-1" "iam" testTime
           (time.Date 2015 8 30 23 59 59)); reflexivity.
Defined.

(** ** The scope and the string to sign *)

(** X6.  The credential scope can be read back: when neither the region
    nor the service has a "/" in it, splitting the scope at "/" gives
    exactly the four fields date, region, service and "aws4_request". *)
Theorem credentialScope_fields :
  forall (timestamp : time.Time) (region service : string),
    string_existsb (Ascii.eqb "/") region = false ->
    string_existsb (Ascii.eqb "/") service = false ->
    strings.Split (credentialScope timestamp region service) "/"
    = [spec_date timestamp; region; service; "aws4_request"].
Proof.
  intros timestamp region service Hr Hs.
  rewrite credentialScope_Join.
  apply (Split_Join_byte "/"); [discriminate|].
  repeat (apply Forall_cons; split);
    [apply spec_date_no_slash|exact Hr|exact Hs|reflexivity|constructor].
Qed.

Lemma credentialScope_fields_witness :
  strings.Split (credentialScope testTime "us-east-1" "iam") "/"
  = [spec_date testTime; "us-east-1"; "iam"; "aws4_request"].
Proof. apply (credentialScope_fields testTime "us-east-1" "iam"); reflexivity. Defined.

(** X7.  The string to sign has exactly four lines when the region, the
    service and the hash of the canonical request have no line feed in
    them: the algorithm, the compact timestamp, the credential scope and the
    hash, in this order. *)
Theorem stringToSign_lines :
  forall (timestamp : time.Time) (region service hashed : string),
    string_existsb isLF region = false ->
    string_existsb isLF service = false ->
    string_existsb isLF hashed = false ->
    strings.Split (stringToSign timestamp region service hashed) LF
    = [algorithm; spec_compact timestamp; credentialScope timestamp region service; hashed].
Proof.
  intros timestamp region service hashed Hr Hs Hh.
  rewrite stringToSign_Join.
  assert (Heqb : forall s, string_existsb (Ascii.eqb (ascii_of_nat 10)) s = string_existsb isLF s).
  { intros s. apply string_existsb_ext. intros c. unfold isLF. apply Ascii.eqb_sym. }
  apply (Split_Join_byte (ascii_of_nat 10)); [discriminate|].
  repeat (apply Forall_cons; split); [| | | |constructor]; rewrite Heqb.
  - reflexivity.
  - apply spec_compact_no_LF.
  - rewrite credentialScope_Join. apply string_existsb_Join; [|reflexivity].
    repeat (apply Forall_cons; split);
      [apply spec_date_no_LF|exact Hr|exact Hs|reflexivity|constructor].
  - exact Hh.
Qed.

Lemma stringToSign_lines_witness :
  strings.Split
    (stringToSign testTime "us-east-1" "iam"
       "f536975d06c0309214f805bb90ccff089219ecd68b2577efef23edd43b7e1a59") LF
  = [algorithm; spec_compact testTime; credentialScope testTime "us-east-1" "iam";
     "f536975d06c0309214f805bb90ccff089219ecd68b2577efef23edd43b7e1a59"].
Proof.
  apply (stringToSign_lines testTime "us-east-1" "iam"
           "f536975d06c0309214f805bb90ccff089219ecd68b2577efef23edd43b7e1a59");
    reflexivity.
Defined.

Section more_header_facts.
Variable unicodeLower : string -> string.

Lemma elem_of_keys (h : gmap string (list string)) (k : string) :
  k ∈ (map_to_list h).*1 <-> is_Some (h !! k).
Proof.
  rewrite list_elem_of_fmap. split.
  - intros [[k' vs] [-> Hin]]. apply elem_of_map_to_list in Hin. by exists vs.
  - intros [vs Hvs]. exists (k, vs). split; [reflexivity|]. by apply elem_of_map_to_list.
Qed.

Lemma keys_Permutation_dom (h1 h2 : gmap string (list string)) :
  dom h1 = dom h2 -> (map_to_list h1).*1 ≡ₚ (map_to_list h2).*1.
Proof.
  intros Hdom. apply NoDup_Permutation; [apply NoDup_fst_map_to_list..|].
  intros k. by rewrite !elem_of_keys, <- !elem_of_dom, Hdom.
Qed.

Lemma lower_byte_not_upper (c : ascii) :
  isUpperAZ (if isUpperAZ c then ascii_add c 32 else c) = false.
Proof. destruct c as [[] [] [] [] [] [] [] []]; reflexivity. Qed.

Lemma ToLower_ascii_no_upper (s : string) :
  string_forallb (fun c => (N_of_ascii c <? 128)%N) s = true ->
  string_existsb isUpperAZ (strings.ToLower unicodeLower s) = false.
Proof.
  intros Hs. unfold strings.ToLower. rewrite Hs. clear Hs.
  induction s as [|c s IH]; [reflexivity|].
  cbn [string_map string_existsb]. by rewrite lower_byte_not_upper, IH.
Qed.

Lemma lowerCaseHeaders_fold_notin (entries : list (string * list string))
    (m : gmap string string) (name : string) :
  name ∉ strings.ToLower unicodeLower <$> entries.*1 ->
  fold_left (fun lowerCaseHeaders '(name, value) =>
               <[strings.ToLower unicodeLower name := strings.Join value " "]> lowerCaseHeaders)
            entries m !! name = m !! name.
Proof.
  revert m. induction entries as [|[k vs] entries IH]; intros m Hnot; [reflexivity|].
  cbn [fold_left]. rewrite !fmap_cons in Hnot. apply not_elem_of_cons in Hnot as [Hne Hnot].
  rewrite (IH _ Hnot). by apply lookup_insert_ne.
Qed.

Lemma lowerCaseHeaders_fold_lookup (entries : list (string * list string))
    (m : gmap string string) (k : string) (vs : list string) :
  NoDup (strings.ToLower unicodeLower <$> entries.*1) ->
  (k, vs) ∈ entries ->
  fold_left (fun lowerCaseHeaders '(name, value) =>
               <[strings.ToLower unicodeLower name := strings.Join value " "]> lowerCaseHeaders)
            entries m !! strings.ToLower unicodeLower k = Some (strings.Join vs " ").
Proof.
  revert m. induction entries as [|[k' vs'] entries IH]; intros m Hnd Hin.
  - by apply elem_of_nil in Hin.
  - rewrite !fmap_cons in Hnd. apply NoDup_cons in Hnd as [Hnot Hnd].
    cbn [fold_left]. apply elem_of_cons in Hin as [Heq|Hin].
    + injection Heq as -> ->. rewrite (lowerCaseHeaders_fold_notin _ _ _ Hnot).
      apply lookup_insert_eq.
    + by apply IH.
Qed.

Lemma signed_names_Forall (P : string -> Prop) (header : gmap string (list string)) :
  Forall P (strings.ToLower unicodeLower <$> (map_to_list header).*1) ->
  P hostHeader ->
  Forall P (sort.Strings
              ((strings.ToLower unicodeLower <$> (map_to_list header).*1) ++ [hostHeader])).
Proof.
  intros Hall Hhost. unfold sort.Strings.
  eapply Permutation_Forall; [symmetry; apply merge_sort_Permutation|].
  apply Forall_app. split; [exact Hall|]. by apply Forall_singleton.
Qed.

End more_header_facts.

(** ** The signed headers *)

(** X8.  The order in which the two [range] loops visit the header map
    does not matter: for every order [visited] of the entries, the list of
    signed names is the same, and so is the map of lower-cased headers when
    no two keys lower-case to one name.  It does matter when two keys do:
    the entries "A" and "a" give different maps in the two orders. *)
Theorem header_traversal_order :
  forall (unicodeLower : string -> string) (header : textproto.MIMEHeader)
         (visited : list (string * list string)),
    visited ≡ₚ map_to_list header ->
    strings.Join
      (sort.Strings
         (fold_left (fun headerNames name =>
                       headerNames ++ [strings.ToLower unicodeLower name])
                    (map fst visited) [] ++ [hostHeader])) ";"
    = signedHeaders unicodeLower header
    /\ (NoDup (strings.ToLower unicodeLower <$> (map_to_list header).*1) ->
        lowerCaseHeaders_of unicodeLower visited
        = lowerCaseHeaders_of unicodeLower (map_to_list header))
    /\ lowerCaseHeaders_of unicodeLower [("A", ["1"]); ("a", ["2"])]
       <> lowerCaseHeaders_of unicodeLower [("a", ["2"]); ("A", ["1"])].
Proof.
  intros ul header visited Hperm. split; [|split].
  - apply signedHeaders_any_order. by apply fmap_Permutation.
  - intros Hnd. by apply lowerCaseHeaders_any_order.
  - intros Heq. apply (f_equal (fun m => m !! "a")) in Heq.
    vm_compute in Heq. discriminate Heq.
Qed.

Lemma header_traversal_order_witness :
  let header : textproto.MIMEHeader :=
    textproto.Add (textproto.Add ∅ "Content-Type" "text/plain") "X-Amz-Date" "20150830T123600Z" in
  let visited := reverse (map_to_list header) in
  strings.Join
    (sort.Strings
       (fold_left (fun headerNames name => headerNames ++ [strings.ToLower noUnicode name])
                  (map fst visited) [] ++ [hostHeader])) ";"
  = signedHeaders noUnicode header
  /\ (NoDup (strings.ToLower noUnicode <$> (map_to_list header).*1) ->
      lowerCaseHeaders_of noUnicode visited
      = lowerCaseHeaders_of noUnicode (map_to_list header))
  /\ lowerCaseHeaders_of noUnicode [("A", ["1"]); ("a", ["2"])]
     <> lowerCaseHeaders_of noUnicode [("a", ["2"]); ("A", ["1"])].
Proof.
  intros header visited.
  apply (header_traversal_order noUnicode header visited).
  apply reverse_Permutation.
Defined.

(** X9.  The signed header list can be read back: when no lower-cased key
    has a ";" in it, splitting [signedHeaders] at ";" gives the lower-cased
    keys of the header together with "host", in increasing order; the list
    has one name more than the header has keys. *)
Theorem signedHeaders_entries :
  forall (unicodeLower : string -> string) (header : textproto.MIMEHeader),
    Forall (fun name => string_existsb (Ascii.eqb ";") name = false)
           (strings.ToLower unicodeLower <$> (map_to_list header).*1) ->
    let names := strings.Split (signedHeaders unicodeLower header) ";" in
    names ≡ₚ (strings.ToLower unicodeLower <$> (map_to_list header).*1) ++ [hostHeader]
    /\ StronglySorted String.le names
    /\ length names = S (size header)
    /\ hostHeader ∈ names
    /\ (forall key, is_Some (header !! key) -> strings.ToLower unicodeLower key ∈ names).
Proof.
  intros ul header Hall names. subst names.
  rewrite signedHeaders_names.
  assert (Hperm : sort.Strings ((strings.ToLower ul <$> (map_to_list header).*1) ++ [hostHeader])
                  ≡ₚ (strings.ToLower ul <$> (map_to_list header).*1) ++ [hostHeader])
    by apply merge_sort_Permutation.
  rewrite Split_Join.
  - split; [exact Hperm|]. split; [apply (StronglySorted_merge_sort _)|].
    split; [|split].
    + rewrite Hperm, length_app, !length_fmap, length_map_to_list. cbn. lia.
    + rewrite Hperm. apply elem_of_app. right. apply list_elem_of_singleton. reflexivity.
    + intros key Hkey. rewrite Hperm. apply elem_of_app. left.
      apply list_elem_of_fmap. exists key. split; [reflexivity|]. by apply elem_of_keys.
  - intros Hnil. rewrite Hnil in Hperm. apply Permutation_nil_l in Hperm.
    by destruct (strings.ToLower ul <$> (map_to_list header).*1).
  - by apply signed_names_Forall.
Qed.

Lemma signedHeaders_entries_witness :
  let header : textproto.MIMEHeader :=
    textproto.Add (textproto.Add ∅ "Content-Type" "text/plain") "X-Amz-Date" "20150830T123600Z" in
  let names := strings.Split (signedHeaders noUnicode header) ";" in
  names ≡ₚ (strings.ToLower noUnicode <$> (map_to_list header).*1) ++ [hostHeader]
  /\ StronglySorted String.le names
  /\ length names = S (size header)
  /\ hostHeader ∈ names
  /\ (forall key, is_Some (header !! key) -> strings.ToLower noUnicode key ∈ names).
Proof.
  intros header.
  apply (signedHeaders_entries noUnicode header).
  vm_compute. repeat constructor.
Defined.

(** X10.  With no header at all the signed list is "host" alone and the
    canonical headers block is the host line, an empty line and "host",
    whatever the host is (also when it is empty). *)
Theorem canonicalHeaders_of_no_header :
  forall (unicodeLower : string -> string) (host : string),
    signedHeaders unicodeLower ∅ = "host"
    /\ canonicalHeaders unicodeLower ∅ host = "host:" +:+ host +:+ LF +:+ LF +:+ "host".
Proof.
  intros ul host. split; [reflexivity|].
  unfold canonicalHeaders.
  change (signedHeaders ul ∅) with "host".
  change (strings.Split "host" ";") with ["host"].
  cbn [fold_left]. unfold Buffer.String, Buffer.WriteString, Buffer.new.
  change hostHeader with "host". rewrite lookup_total_insert_eq.
  rewrite string_app_nil_l, !string_app_assoc. reflexivity.
Qed.

(** X11.  When the lower-cased keys of the header are pairwise distinct,
    none of them is "host" and none has a ";" in it, the canonical headers
    block is one line [name:value] for each signed name in increasing order,
    an empty line, and the signed list; the value of "host" is the host of
    the request, and the value of every other name is the values of its
    header joined by single spaces, in the order the header holds them (no
    trimming, no folding of spaces). *)
Theorem canonicalHeaders_one_line_per_name :
  forall (unicodeLower : string -> string) (header : textproto.MIMEHeader) (host : string),
    NoDup ((strings.ToLower unicodeLower <$> (map_to_list header).*1) ++ [hostHeader]) ->
    Forall (fun name => string_existsb (Ascii.eqb ";") name = false)
           (strings.ToLower unicodeLower <$> (map_to_list header).*1) ->
    let names :=
      sort.Strings ((strings.ToLower unicodeLower <$> (map_to_list header).*1) ++ [hostHeader]) in
    let values :=
      <[hostHeader := host]> (lowerCaseHeaders_of unicodeLower (map_to_list header)) in
    canonicalHeaders unicodeLower header host
    = foldr (fun name rest => name +:+ ":" +:+ values !!! name +:+ LF +:+ rest) "" names
        +:+ LF +:+ strings.Join names ";"
    /\ values !!! hostHeader = host
    /\ forall key value,
         header !! key = Some value ->
         values !!! strings.ToLower unicodeLower key = strings.Join value " ".
Proof.
  intros ul header host Hnd Hall names values.
  destruct (canonicalHeaders_block ul header host) as (Hblock & Hhost & Hother).
  { by apply signed_names_Forall. }
  split; [exact Hblock|]. split; [exact Hhost|].
  intros key value Hkey.
  apply NoDup_app in Hnd as (Hnd & Hdisj & _).
  assert (Hin : strings.ToLower ul key ∈ strings.ToLower ul <$> (map_to_list header).*1).
  { apply list_elem_of_fmap. exists key. split; [reflexivity|]. apply elem_of_keys. by exists value. }
  rewrite Hother.
  - unfold lowerCaseHeaders_of. apply lookup_total_correct.
    apply lowerCaseHeaders_fold_lookup; [exact Hnd|]. by apply elem_of_map_to_list.
  - intros Heq. apply (Hdisj _ Hin). rewrite Heq. apply list_elem_of_singleton. reflexivity.
Qed.

Lemma canonicalHeaders_one_line_per_name_witness :
  let header : textproto.MIMEHeader :=
    textproto.Add (textproto.Add ∅ "Accept" "text/html") "Accept" "text/plain" in
  let names :=
    sort.Strings ((strings.ToLower noUnicode <$> (map_to_list header).*1) ++ [hostHeader]) in
  let values :=
    <[hostHeader := "example.com"]> (lowerCaseHeaders_of noUnicode (map_to_list header)) in
  canonicalHeaders noUnicode header "example.com"
  = foldr (fun name rest => name +:+ ":" +:+ values !!! name +:+ LF +:+ rest) "" names
      +:+ LF +:+ strings.Join names ";"
  /\ values !!! hostHeader = "example.com"
  /\ forall key value,
       header !! key = Some value ->
       values !!! strings.ToLower noUnicode key = strings.Join value " ".
Proof.
  intros header.
  apply (canonicalHeaders_one_line_per_name noUnicode header "example.com").
  - apply (bool_decide_unpack _). vm_compute. exact I.
  - vm_compute. repeat constructor.
Defined.

(** X12.  The signed header list depends on the names of the headers only,
    not on their values: two headers with the same keys give the same
    list. *)
Theorem signedHeaders_ignores_values :
  forall (unicodeLower : string -> string) (header1 header2 : textproto.MIMEHeader),
    dom header1 = dom header2 ->
    signedHeaders unicodeLower header1 = signedHeaders unicodeLower header2.
Proof.
  intros ul header1 header2 Hdom. rewrite !signedHeaders_names.
  f_equal. apply sort_Strings_Permutation.
  apply Permutation_app_tail, fmap_Permutation. by apply keys_Permutation_dom.
Qed.

Lemma signedHeaders_ignores_values_witness :
  signedHeaders noUnicode (textproto.Add ∅ "Accept" "text/html")
  = signedHeaders noUnicode (textproto.Add (textproto.Add ∅ "Accept" "a") "Accept" "b").
Proof.
  apply (signedHeaders_ignores_values noUnicode
           (textproto.Add ∅ "Accept" "text/html")
           (textproto.Add (textproto.Add ∅ "Accept" "a") "Accept" "b")).
  vm_compute. reflexivity.
Defined.

(** X13.  When every key of the header is ASCII, the signed header list
    has no upper-case letter A-Z in it. *)
Theorem signedHeaders_is_lower_case :
  forall (unicodeLower : string -> string) (header : textproto.MIMEHeader),
    Forall (fun key => string_forallb (fun c => (N_of_ascii c <? 128)%N) key = true)
           (map_to_list header).*1 ->
    string_existsb isUpperAZ (signedHeaders unicodeLower header) = false.
Proof.
  intros ul header Hascii. rewrite signedHeaders_names.
  apply string_existsb_Join; [|reflexivity].
  apply (signed_names_Forall ul (fun e => string_existsb isUpperAZ e = false)); [|reflexivity].
  apply Forall_fmap. eapply Forall_impl; [exact Hascii|].
  intros key Hkey. by apply ToLower_ascii_no_upper.
Qed.

Lemma signedHeaders_is_lower_case_witness :
  string_existsb isUpperAZ
    (signedHeaders noUnicode
       (textproto.Add (textproto.Add ∅ "Content-Type" "text/plain") "X-Amz-Date" "now"))
  = false.
Proof.
  apply (signedHeaders_is_lower_case noUnicode
           (textproto.Add (textproto.Add ∅ "Content-Type" "text/plain") "X-Amz-Date" "now")).
  vm_compute. repeat constructor.
Defined.

(** ** Sign *)

Section more_sign_facts.
Variable unicodeLower : string -> string.

(** The block [canonicalHeaders] returns ends with an empty line and the
    signed list, whatever the headers are. *)
Lemma canonicalHeaders_ends_with_signedHeaders (header : textproto.MIMEHeader) (host : string) :
  exists block : string,
    canonicalHeaders unicodeLower header host
    = block +:+ LF +:+ signedHeaders unicodeLower header.
Proof.
  unfold canonicalHeaders, Buffer.String, Buffer.WriteString.
  eexists. rewrite string_app_assoc. reflexivity.
Qed.

Lemma key_is_signed (header : textproto.MIMEHeader) (key : string) :
  is_Some (header !! key) ->
  strings.ToLower unicodeLower key
  ∈ sort.Strings ((strings.ToLower unicodeLower <$> (map_to_list header).*1) ++ [hostHeader]).
Proof.
  intros Hkey. unfold sort.Strings. rewrite merge_sort_Permutation.
  apply elem_of_app. left. apply list_elem_of_fmap. exists key.
  split; [reflexivity|]. by apply elem_of_keys.
Qed.

Lemma host_is_signed (header : textproto.MIMEHeader) :
  hostHeader
  ∈ sort.Strings ((strings.ToLower unicodeLower <$> (map_to_list header).*1) ++ [hostHeader]).
Proof.
  unfold sort.Strings. rewrite merge_sort_Permutation.
  apply elem_of_app. right. apply list_elem_of_singleton. reflexivity.
Qed.

Lemma Add_is_Some (h : textproto.MIMEHeader) (key value : string) :
  is_Some (textproto.Add h key value !! textproto.CanonicalMIMEHeaderKey key).
Proof. rewrite lookup_Add. by eexists. Qed.

Lemma Add_keeps_keys (h : textproto.MIMEHeader) (key value name : string) :
  is_Some (h !! name) -> is_Some (textproto.Add h key value !! name).
Proof.
  intros Hname. destruct (decide (textproto.CanonicalMIMEHeaderKey key = name)) as [<-|Hne].
  - apply Add_is_Some.
  - by rewrite lookup_Add_ne.
Qed.

Lemma Sign_Authorization (signer : Signer) (now : time.Time) (request : http.Request)
    (payload : string) :
  http.Header (Sign unicodeLower signer now request payload) !!! "Authorization"
  = http.Header request !!! "Authorization"
      ++ [authorizationOf unicodeLower signer now request payload].
Proof.
  rewrite Sign_Header. rewrite <- CanonicalMIMEHeaderKey_Authorization at 1.
  rewrite lookup_total_Add, CanonicalMIMEHeaderKey_Authorization.
  rewrite lookup_total_Add_ne by (rewrite CanonicalMIMEHeaderKey_dateHeader; discriminate).
  reflexivity.
Qed.

End more_sign_facts.

(** X14.  The [Authorization] value [Sign] appends names the access key,
    the scope date/region/service/aws4_request of the signing instant, the
    signed names and the signature.  The signed names are those of the
    request with its date header attached, so "x-amz-date" and "host" are
    always among them; and they are the very list the canonical headers
    block that was hashed into the signature ends with. *)
Theorem Sign_authorization_names_what_was_signed :
  forall (unicodeLower : string -> string) (signer : Signer) (now : time.Time)
         (request : http.Request) (payload : string),
    let dated := Header_Add request dateHeader (time.Format now time.RFC3339) in
    let names :=
      sort.Strings
        ((strings.ToLower unicodeLower <$> (map_to_list (http.Header dated)).*1)
           ++ [hostHeader]) in
    last (http.Header (Sign unicodeLower signer now request payload) !!! "Authorization")
    = Some (algorithm +:+ ", Credential=" +:+ AccessKeyID signer +:+ "/"
              +:+ spec_date now +:+ "/" +:+ Region signer +:+ "/" +:+ Service signer
              +:+ "/aws4_request"
              +:+ ", SignedHeaders=" +:+ strings.Join names ";"
              +:+ ", Signature="
              +:+ AWSSignature unicodeLower dated payload now (Region signer) (Service signer)
                    (AccessKeySecret signer))
    /\ "x-amz-date" ∈ names
    /\ "host" ∈ names
    /\ exists block : string,
         canonicalHeaders unicodeLower (http.Header dated) (http.Host dated)
         = block +:+ LF +:+ strings.Join names ";".
Proof.
  intros ul signer now request payload dated names. subst names.
  split; [|split; [|split]].
  - rewrite Sign_Authorization, last_snoc. unfold authorizationOf. fold dated.
    rewrite signedHeaders_names, credentialScope_Join.
    cbn [strings.Join]. rewrite !string_app_assoc. reflexivity.
  - change "x-amz-date" with (strings.ToLower ul "X-Amz-Date").
    apply key_is_signed. subst dated. unfold Header_Add. cbn [http.Header].
    rewrite <- CanonicalMIMEHeaderKey_dateHeader. apply Add_is_Some.
  - apply host_is_signed.
  - rewrite <- signedHeaders_names. apply canonicalHeaders_ends_with_signedHeaders.
Qed.

(** X15.  [Sign] is not idempotent: signing a signed request again appends
    a second date and a second [Authorization] value after the first ones,
    and the second signature covers the header "authorization" that the
    first one added. *)
Theorem Sign_twice_appends_again :
  forall (unicodeLower : string -> string) (signer1 signer2 : Signer) (now1 now2 : time.Time)
         (request : http.Request) (payload1 payload2 : string),
    let once := Sign unicodeLower signer1 now1 request payload1 in
    let twice := Sign unicodeLower signer2 now2 once payload2 in
    let dated := Header_Add once dateHeader (time.Format now2 time.RFC3339) in
    http.Header twice !!! "X-Amz-Date"
    = http.Header request !!! "X-Amz-Date"
        ++ [time.Format now1 time.RFC3339; time.Format now2 time.RFC3339]
    /\ http.Header twice !!! "Authorization"
       = http.Header request !!! "Authorization"
           ++ [authorizationOf unicodeLower signer1 now1 request payload1;
               authorizationOf unicodeLower signer2 now2 once payload2]
    /\ signedHeaders unicodeLower (http.Header dated)
       = strings.Join
           (sort.Strings
              ((strings.ToLower unicodeLower <$> (map_to_list (http.Header dated)).*1)
                 ++ [hostHeader])) ";"
    /\ "authorization"
       ∈ sort.Strings
           ((strings.ToLower unicodeLower <$> (map_to_list (http.Header dated)).*1)
              ++ [hostHeader]).
Proof.
  intros ul signer1 signer2 now1 now2 request payload1 payload2 once twice dated.
  subst twice. split; [|split; [|split]].
  - rewrite Sign_date_header. subst once. rewrite Sign_date_header.
    by rewrite <- app_assoc.
  - rewrite Sign_Authorization. subst once. rewrite Sign_Authorization.
    by rewrite <- app_assoc.
  - apply signedHeaders_names.
  - change "authorization" with (strings.ToLower ul "Authorization").
    apply key_is_signed. subst dated. unfold Header_Add. cbn [http.Header].
    apply Add_keeps_keys. subst once. rewrite Sign_Header.
    rewrite <- CanonicalMIMEHeaderKey_Authorization at 2. apply Add_is_Some.
Qed.

(** ** The segments of the canonical request *)

Section more_segment_facts.

Lemma string_forallb_impl (p q : ascii -> bool) (s : string) :
  (forall c, p c = true -> q c = true) ->
  string_forallb p s = true -> string_forallb q s = true.
Proof.
  intros Hpq. induction s as [|c s IH]; [reflexivity|].
  cbn [string_forallb]. intros H. apply andb_true_iff in H as [Hc Hs].
  by rewrite (Hpq c Hc), (IH Hs).
Qed.

(** [escape] works byte by byte. *)
Lemma escape_cons (c : ascii) (s : string) (mode : url.encoding) :
  url.escape (String c s) mode = url.escape (String c "") mode +:+ url.escape s mode.
Proof.
  cbn [url.escape]. destruct (url.shouldEscape c mode); [|reflexivity].
  destruct mode; [reflexivity|]. destruct (Ascii.eqb c " "); reflexivity.
Qed.

Lemma escape_byte_graphic (c : ascii) (mode : url.encoding) :
  string_forallb isGraphic (url.escape (String c "") mode) = true.
Proof. destruct mode; destruct c as [[] [] [] [] [] [] [] []]; reflexivity. Qed.

Lemma escape_graphic (s : string) (mode : url.encoding) :
  string_forallb isGraphic (url.escape s mode) = true.
Proof.
  induction s as [|c s IH]; [reflexivity|].
  by rewrite escape_cons, string_forallb_app, escape_byte_graphic, IH.
Qed.

Lemma escape_byte_query (c : ascii) :
  string_forallb (fun x => isQueryByte x && negb (Ascii.eqb x "&") && negb (Ascii.eqb x "=")
                           && negb (Ascii.eqb x ";"))
                 (url.escape (String c "") url.encodeQueryComponent) = true.
Proof. destruct c as [[] [] [] [] [] [] [] []]; reflexivity. Qed.

(** An escaped query component has unreserved bytes, "%" and "+" only. *)
Lemma QueryEscape_bytes (s : string) :
  string_forallb (fun x => isQueryByte x && negb (Ascii.eqb x "&") && negb (Ascii.eqb x "=")
                           && negb (Ascii.eqb x ";"))
                 (url.QueryEscape s) = true.
Proof.
  unfold url.QueryEscape. induction s as [|c s IH]; [reflexivity|].
  by rewrite escape_cons, string_forallb_app, escape_byte_query, IH.
Qed.

Lemma validEncoded_byte_graphic (c : ascii) :
  (if existsb (Ascii.eqb c) (String.list_ascii_of_string "!$&'()*+,;=:@[]%") then true
   else negb (url.shouldEscape c url.encodePath)) = true ->
  isGraphic c = true.
Proof. destruct c as [[] [] [] [] [] [] [] []]; intros H; try reflexivity; discriminate H. Qed.

Lemma EscapedPath_graphic (u : url.URL) :
  string_forallb isGraphic (url.EscapedPath u) = true.
Proof.
  unfold url.EscapedPath.
  destruct (negb (String.eqb (url.RawPath u) "")); cbn [andb].
  - destruct (url.validEncoded (url.RawPath u) url.encodePath) eqn:Hvalid; cbn [andb].
    + destruct (bool_decide _).
      * revert Hvalid. apply string_forallb_impl. exact validEncoded_byte_graphic.
      * destruct (String.eqb (url.Path u) "*"); [reflexivity|apply escape_graphic].
    + destruct (String.eqb (url.Path u) "*"); [reflexivity|apply escape_graphic].
  - destruct (String.eqb (url.Path u) "*"); [reflexivity|apply escape_graphic].
Qed.

Lemma renderParam_bytes (p : string * string) :
  string_forallb isQueryByte (renderParam p) = true.
Proof.
  unfold renderParam. rewrite !string_forallb_app.
  assert (H : forall s, string_forallb isQueryByte (url.QueryEscape s) = true).
  { intros s. generalize (QueryEscape_bytes s). apply string_forallb_impl.
    intros c Hc. by repeat (apply andb_true_iff in Hc as [Hc _]). }
  by rewrite !H.
Qed.

Lemma Encode_bytes (v : url.Values) : string_forallb isQueryByte (url.Encode v) = true.
Proof.
  rewrite Encode_paramsOf. apply string_forallb_Join; [|reflexivity].
  apply Forall_fmap, Forall_forall. intros p _. apply renderParam_bytes.
Qed.

Lemma graphic_no_LF (s : string) :
  string_forallb isGraphic s = true -> string_existsb isLF s = false.
Proof.
  apply string_forallb_existsb. intros c Hc. unfold isLF.
  destruct (Ascii.eqb_spec c (ascii_of_nat 10)) as [->|]; [discriminate Hc|reflexivity].
Qed.

Lemma query_bytes_graphic (s : string) :
  string_forallb isQueryByte s = true -> string_forallb isGraphic s = true.
Proof.
  apply string_forallb_impl. intros c.
  destruct c as [[] [] [] [] [] [] [] []]; intros H; try reflexivity; discriminate H.
Qed.

(** Splitting at a byte distributes over an instance of the byte. *)
Lemma Split_from_app_byte (c : ascii) (a b cur : string) :
  strings.Split_from (String c "") 0 cur (a +:+ String c b)
  = strings.Split_from (String c "") 0 cur a ++ strings.Split_from (String c "") 0 "" b.
Proof.
  revert cur. induction a as [|x a IH]; intros cur.
  - rewrite string_app_nil_l. cbn [strings.Split_from].
    rewrite prefix_byte, Ascii.eqb_refl. reflexivity.
  - rewrite string_app_cons. cbn [strings.Split_from]. rewrite !prefix_byte.
    destruct (Ascii.eqb x c).
    + cbn [String.length Nat.sub]. rewrite IH. reflexivity.
    + apply IH.
Qed.

Lemma Split_app_LF (a b : string) :
  strings.Split (a +:+ LF +:+ b) LF = strings.Split a LF ++ strings.Split b LF.
Proof. apply (Split_from_app_byte (ascii_of_nat 10)). Qed.

Lemma Split_no_LF (a : string) :
  string_existsb isLF a = false -> strings.Split a LF = [a].
Proof.
  intros Ha. apply (Split_Join_byte (ascii_of_nat 10) [a]); [discriminate|].
  apply Forall_singleton. rewrite <- Ha. apply string_existsb_ext.
  intros c. unfold isLF. apply Ascii.eqb_sym.
Qed.

End more_segment_facts.

(** X16.  The path segment and the query segment of the canonical request
    are printable ASCII without a space, whatever the URL holds: the path
    segment has bytes from "!" to "~" only, and the query segment has
    letters, digits, "-", "_", ".", "~", "%", "+", "=" and "&" only.  In
    particular neither has a line feed. *)
Theorem path_and_query_segments_are_printable :
  forall u : url.URL,
    string_forallb isGraphic (url.EscapedPath u) = true
    /\ string_forallb isQueryByte (url.Encode (url.Query u)) = true
    /\ string_existsb isLF (url.EscapedPath u) = false
    /\ string_existsb isLF (url.Encode (url.Query u)) = false.
Proof.
  intros u. split; [apply EscapedPath_graphic|]. split; [apply Encode_bytes|].
  split; [apply graphic_no_LF, EscapedPath_graphic|].
  apply graphic_no_LF, query_bytes_graphic, Encode_bytes.
Qed.

(** X17.  The canonical request can be read back line by line: when the
    method has no line feed in it, the lines of the canonical request are
    the method, the path segment, the query segment, the lines of the
    canonical headers block, and the payload hash, whatever the path, the
    query and the payload are. *)
Theorem canonicalString_lines :
  forall (unicodeLower : string -> string) (request : http.Request) (payload : string),
    string_existsb isLF (http.Method request) = false ->
    strings.Split (canonicalString unicodeLower request payload) LF
    = [http.Method request; url.EscapedPath (http.URL request);
       url.Encode (url.Query (http.URL request))]
        ++ strings.Split
             (canonicalHeaders unicodeLower (http.Header request) (http.Host request)) LF
        ++ [hashedBody payload].
Proof.
  intros ul request payload Hmethod.
  rewrite canonicalString_layout, !Split_app_LF.
  rewrite (Split_no_LF _ Hmethod).
  rewrite (Split_no_LF _ (graphic_no_LF _ (EscapedPath_graphic _))).
  rewrite (Split_no_LF _ (graphic_no_LF _ (query_bytes_graphic _ (Encode_bytes _)))).
  rewrite (Split_no_LF _ (EncodeToString_no_LF _)).
  reflexivity.
Qed.

Lemma canonicalString_lines_witness :
  strings.Split (canonicalString noUnicode fakeRequest "") LF
  = [http.Method fakeRequest; url.EscapedPath (http.URL fakeRequest);
     url.Encode (url.Query (http.URL fakeRequest))]
      ++ strings.Split
           (canonicalHeaders noUnicode (http.Header fakeRequest) (http.Host fakeRequest)) LF
      ++ [hashedBody ""].
Proof. apply (canonicalString_lines noUnicode fakeRequest ""). reflexivity. Defined.

Section more_block_facts.
Variable unicodeLower : string -> string.

(** Every value of the map the first loop of [canonicalHeaders] builds is
    the values of one header joined by spaces. *)
Lemma lowerCaseHeaders_fold_values (P : string -> Prop) (entries : list (string * list string))
    (m : gmap string string) :
  Forall (fun entry => P (strings.Join entry.2 " ")) entries ->
  map_Forall (fun _ value => P value) m ->
  map_Forall (fun _ value => P value)
    (fold_left (fun lowerCaseHeaders '(name, value) =>
                  <[strings.ToLower unicodeLower name := strings.Join value " "]>
                    lowerCaseHeaders)
               entries m).
Proof.
  intros Hall. revert m. induction Hall as [|[k vs] entries Hk Hall IH]; intros m Hm; [exact Hm|].
  cbn [fold_left]. apply IH. by apply map_Forall_insert_2.
Qed.

Lemma lookup_total_Forall (P : string -> Prop) (m : gmap string string) (name : string) :
  P "" -> map_Forall (fun _ value => P value) m -> P (m !!! name).
Proof.
  intros Hempty Hm. rewrite lookup_total_alt.
  destruct (m !! name) as [value|] eqn:Hname; [exact (Hm _ _ Hname)|exact Hempty].
Qed.

Lemma Split_lines (line : string -> string) (names : list string) (tail : string) :
  Forall (fun name => string_existsb isLF (line name) = false) names ->
  strings.Split (foldr (fun name rest => line name +:+ LF +:+ rest) "" names +:+ LF +:+ tail) LF
  = (line <$> names) ++ "" :: strings.Split tail LF.
Proof.
  intros Hall. induction Hall as [|name names Hname Hall IH].
  - cbn [foldr fmap list_fmap app]. rewrite Split_app_LF. reflexivity.
  - cbn [foldr]. rewrite !string_app_assoc, Split_app_LF, (Split_no_LF _ Hname).
    rewrite IH. reflexivity.
Qed.

End more_block_facts.

(** X18.  The canonical headers block can be read back line by line: when
    no lower-cased key has a ";" or a line feed in it and neither the host
    nor any header value has a line feed, the lines of the block are one
    line [name:value] for each signed name, in increasing order of the
    names, then an empty line, then the signed list. *)
Theorem canonicalHeaders_lines_read_back :
  forall (unicodeLower : string -> string) (header : textproto.MIMEHeader) (host : string),
    Forall (fun name => string_existsb (Ascii.eqb ";") name = false)
           (strings.ToLower unicodeLower <$> (map_to_list header).*1) ->
    Forall (fun name => string_existsb isLF name = false)
           (strings.ToLower unicodeLower <$> (map_to_list header).*1) ->
    string_existsb isLF host = false ->
    (forall key value, header !! key = Some value ->
                       Forall (fun v => string_existsb isLF v = false) value) ->
    let names :=
      sort.Strings ((strings.ToLower unicodeLower <$> (map_to_list header).*1) ++ [hostHeader]) in
    let values :=
      <[hostHeader := host]> (lowerCaseHeaders_of unicodeLower (map_to_list header)) in
    strings.Split (canonicalHeaders unicodeLower header host) LF
    = ((fun name => name +:+ ":" +:+ values !!! name) <$> names)
        ++ [""; signedHeaders unicodeLower header].
Proof.
  intros ul header host Hsemi Hlf Hhost Hvalues names values.
  destruct (canonicalHeaders_block ul header host) as (Hblock & _ & _).
  { by apply signed_names_Forall. }
  fold names values in Hblock. rewrite Hblock. clear Hblock.
  assert (Hnames : Forall (fun name => string_existsb isLF name = false) names).
  { by apply signed_names_Forall. }
  assert (Hmap : map_Forall (fun _ value => string_existsb isLF value = false) values).
  { apply map_Forall_insert_2; [exact Hhost|].
    apply lowerCaseHeaders_fold_values; [|apply map_Forall_empty].
    apply Forall_forall. intros [key value] Hin. apply elem_of_map_to_list in Hin.
    apply string_existsb_Join; [|reflexivity]. exact (Hvalues _ _ Hin). }
  assert (Hsigned : string_existsb isLF (strings.Join names ";") = false).
  { by apply string_existsb_Join. }
  assert (Hjoin : strings.Join names ";" = signedHeaders ul header)
    by (symmetry; apply signedHeaders_names).
  rewrite Hjoin in Hsigned |- *.
  rewrite <- (Split_no_LF _ Hsigned).
  rewrite <- (Split_lines (fun name => name +:+ ":" +:+ values !!! name)).
  - f_equal. f_equal. clear Hnames Hsigned Hjoin. generalize names. intros l.
    induction l as [|name l IH]; [reflexivity|].
    cbn [foldr]. by rewrite IH, !string_app_assoc.
  - eapply Forall_impl; [exact Hnames|]. intros name Hname.
    rewrite !string_existsb_app, Hname. cbn [string_existsb orb].
    change (isLF ":") with false. cbn [orb].
    apply (lookup_total_Forall (fun value => string_existsb isLF value = false));
      [reflexivity|exact Hmap].
Qed.

Lemma canonicalHeaders_lines_read_back_witness :
  let header : textproto.MIMEHeader :=
    textproto.Add (textproto.Add ∅ "Accept" "text/html") "Accept" "text/plain" in
  let names :=
    sort.Strings ((strings.ToLower noUnicode <$> (map_to_list header).*1) ++ [hostHeader]) in
  let values :=
    <[hostHeader := "example.com"]> (lowerCaseHeaders_of noUnicode (map_to_list header)) in
  strings.Split (canonicalHeaders noUnicode header "example.com") LF
  = ((fun name => name +:+ ":" +:+ values !!! name) <$> names)
      ++ [""; signedHeaders noUnicode header].
Proof.
  intros header.
  apply (canonicalHeaders_lines_read_back noUnicode header "example.com").
  - vm_compute. repeat constructor.
  - vm_compute. repeat constructor.
  - reflexivity.
  - intros key value Hkey.
    assert (Hkeys : (key, value) ∈ map_to_list header) by (by apply elem_of_map_to_list).
    vm_compute in Hkeys. apply list_elem_of_singleton in Hkeys.
    injection Hkeys as -> ->. repeat constructor.
Defined.

(** ** The query segment *)

Section more_query_facts.

Lemma unescape_escape_byte (c : ascii) (t : string) :
  url.unescape (url.escape (String c "") url.encodeQueryComponent +:+ t)
               url.encodeQueryComponent
  = (t' ← url.unescape t url.encodeQueryComponent; Some (String c t')).
Proof. destruct c as [[] [] [] [] [] [] [] []]; reflexivity. Qed.

(** Unescaping undoes escaping. *)
Lemma QueryUnescape_QueryEscape (s : string) : url.QueryUnescape (url.QueryEscape s) = Some s.
Proof.
  unfold url.QueryUnescape, url.QueryEscape.
  induction s as [|c s IH]; [reflexivity|].
  rewrite escape_cons, unescape_escape_byte, IH. reflexivity.
Qed.

Lemma Cut_byte_absent (c : ascii) (a : string) :
  string_forallb (fun x => negb (Ascii.eqb x c)) a = true ->
  strings.Cut a (String c "") = (a, "", false).
Proof.
  induction a as [|x a IH]; intros Ha; [reflexivity|].
  cbn [string_forallb] in Ha. apply andb_true_iff in Ha as [Hx Ha].
  cbn [strings.Cut]. rewrite prefix_byte.
  apply negb_true_iff in Hx. rewrite Hx, (IH Ha). reflexivity.
Qed.

Lemma QueryEscape_no_byte (c : ascii) (s : string) :
  c = "&"%char \/ c = "="%char \/ c = ";"%char ->
  string_forallb (fun x => negb (Ascii.eqb x c)) (url.QueryEscape s) = true.
Proof.
  intros Hc. generalize (QueryEscape_bytes s). apply string_forallb_impl.
  intros x Hx. apply andb_true_iff in Hx as [Hx H3]. apply andb_true_iff in Hx as [Hx H2].
  apply andb_true_iff in Hx as [_ H1]. by destruct Hc as [->|[->| ->]].
Qed.

Lemma renderParam_no_byte (c : ascii) (p : string * string) :
  c = "&"%char \/ c = ";"%char ->
  string_forallb (fun x => negb (Ascii.eqb x c)) (renderParam p) = true.
Proof.
  intros Hc. unfold renderParam.
  rewrite !string_forallb_app, !QueryEscape_no_byte by tauto.
  by destruct Hc as [->| ->].
Qed.

Lemma parseQuery_nil (fuel : nat) (m : url.Values) : url.parseQuery fuel m "" = m.
Proof. by destruct fuel. Qed.

(** One pair "key=value" as [Encode] writes it is read back by one turn of
    the loop of [parseQuery]. *)
Lemma parseQuery_rendered_pair (fuel : nat) (m : url.Values) (p : string * string)
    (rest : string) :
  url.parseQuery (S fuel) m (renderParam p +:+ "&" +:+ rest)
  = url.parseQuery fuel (url.Add m p.1 p.2) rest.
Proof.
  apply (parseQuery_first_pair fuel m (renderParam p) rest
           (url.QueryEscape p.1) (url.QueryEscape p.2) true).
  - apply renderParam_no_byte. tauto.
  - unfold strings.Contains. rewrite (Cut_byte_absent ";"); [reflexivity|].
    apply renderParam_no_byte. tauto.
  - unfold renderParam. by destruct (url.QueryEscape p.1).
  - unfold renderParam. change ("=" +:+ url.QueryEscape p.2) with (String "="%char (url.QueryEscape p.2)).
    apply Cut_byte_app, QueryEscape_no_byte. tauto.
  - apply QueryUnescape_QueryEscape.
  - apply QueryUnescape_QueryEscape.
Qed.

Lemma parseQuery_last_rendered_pair (fuel : nat) (m : url.Values) (p : string * string) :
  url.parseQuery (S fuel) m (renderParam p) = url.Add m p.1 p.2.
Proof.
  cbn [url.parseQuery].
  replace (String.eqb (renderParam p) "") with false
    by (symmetry; apply String.eqb_neq; unfold renderParam; by destruct (url.QueryEscape p.1)).
  rewrite (Cut_byte_absent "&") by (apply renderParam_no_byte; tauto).
  unfold strings.Contains.
  rewrite (Cut_byte_absent ";") by (apply renderParam_no_byte; tauto). cbn [snd].
  replace (String.eqb (renderParam p) "") with false
    by (symmetry; apply String.eqb_neq; unfold renderParam; by destruct (url.QueryEscape p.1)).
  unfold renderParam at 1.
  change ("=" +:+ url.QueryEscape p.2) with (String "="%char (url.QueryEscape p.2)).
  rewrite (Cut_byte_app "=") by (apply QueryEscape_no_byte; tauto).
  rewrite !QueryUnescape_QueryEscape. apply parseQuery_nil.
Qed.

(** [parseQuery] reads an encoded query back pair by pair. *)
Lemma parseQuery_Join (ps : list (string * string)) (fuel : nat) (m : url.Values) :
  String.length (strings.Join (renderParam <$> ps) "&") < fuel ->
  url.parseQuery fuel m (strings.Join (renderParam <$> ps) "&")
  = fold_left (fun m p => url.Add m p.1 p.2) ps m.
Proof.
  revert fuel m. induction ps as [|p ps IH]; intros fuel m Hfuel.
  - apply parseQuery_nil.
  - destruct fuel as [|fuel]; [lia|].
    destruct ps as [|q ps].
    + apply parseQuery_last_rendered_pair.
    + change (strings.Join (renderParam <$> p :: q :: ps) "&")
        with (renderParam p +:+ "&" +:+ strings.Join (renderParam <$> q :: ps) "&") in *.
      rewrite parseQuery_rendered_pair. cbn [fold_left]. apply IH.
      rewrite !string_length_app in Hfuel. cbn [String.length] in Hfuel. lia.
Qed.

Lemma fold_Add_values (key : string) (values : list string) (m : url.Values) :
  values <> [] ->
  fold_left (fun m p => url.Add m p.1 p.2) (pair key <$> values) m
  = <[key := m !!! key ++ values]> m.
Proof.
  revert m. induction values as [|value values IH]; intros m Hne; [done|].
  cbn [fmap list_fmap fold_left fst snd].
  destruct values as [|value' values]; [reflexivity|].
  rewrite IH by discriminate. unfold url.Add.
  rewrite lookup_total_insert_eq, insert_insert_eq, <- app_assoc. reflexivity.
Qed.

Lemma fold_Add_params (f : string -> list string) (names : list string) (m : url.Values)
    (name : string) :
  NoDup names ->
  Forall (fun name => f name <> []) names ->
  fold_left (fun m p => url.Add m p.1 p.2) (names ≫= fun name => pair name <$> f name) m
    !! name
  = if decide (name ∈ names) then Some (m !!! name ++ f name) else m !! name.
Proof.
  intros Hnd Hall. revert m.
  induction Hall as [|a names Ha Hall IH]; intros m; [reflexivity|].
  apply NoDup_cons in Hnd as [Hnot Hnd].
  cbn [mbind list_bind]. rewrite fold_left_app, fold_Add_values by exact Ha.
  rewrite (IH Hnd).
  destruct (decide (name = a)) as [->|Hne].
  - rewrite decide_False by exact Hnot. rewrite decide_True by (apply elem_of_cons; by left).
    apply lookup_insert_eq.
  - rewrite lookup_total_insert_ne, lookup_insert_ne by congruence.
    destruct (decide (name ∈ names)) as [Hin|Hnin].
    + rewrite decide_True by (apply elem_of_cons; by right). reflexivity.
    + rewrite decide_False; [reflexivity|]. intros Hin.
      apply elem_of_cons in Hin as [?|?]; [congruence|done].
Qed.

(** The parameters of a [Values] without empty value lists add up to it. *)
Lemma fold_Add_paramsOf (v : url.Values) :
  map_Forall (fun _ values => values <> []) v ->
  fold_left (fun m p => url.Add m p.1 p.2) (paramsOf v) ∅ = v.
Proof.
  intros Hv. apply map_eq. intros name. unfold paramsOf.
  assert (Hperm : sort.Strings (map fst (map_to_list v)) ≡ₚ (map_to_list v).*1)
    by apply merge_sort_Permutation.
  rewrite fold_Add_params.
  - destruct (decide (name ∈ sort.Strings (map fst (map_to_list v)))) as [Hin|Hnin].
    + rewrite Hperm in Hin. apply elem_of_keys in Hin as [values Hname].
      rewrite lookup_total_empty, Hname. cbn [app]. f_equal.
      by apply lookup_total_correct.
    + rewrite lookup_empty. symmetry. apply eq_None_not_Some. intros Hsome.
      apply Hnin. rewrite Hperm. by apply elem_of_keys.
  - rewrite Hperm. apply NoDup_fst_map_to_list.
  - apply Forall_forall. intros key Hkey. rewrite Hperm in Hkey.
    apply elem_of_keys in Hkey as [values Hname].
    rewrite (lookup_total_correct _ _ _ Hname). exact (Hv _ _ Hname).
Qed.

Lemma parseQuery_Encode (fuel : nat) (v : url.Values) :
  map_Forall (fun _ values => values <> []) v ->
  String.length (url.Encode v) < fuel ->
  url.parseQuery fuel ∅ (url.Encode v) = v.
Proof.
  intros Hv Hfuel. rewrite Encode_paramsOf in *.
  rewrite parseQuery_Join by exact Hfuel. by apply fold_Add_paramsOf.
Qed.

(** [parseQuery] only appends values: no key of its result has an empty
    list of values. *)
Lemma parseQuery_no_empty_values (fuel : nat) (m : url.Values) (query : string) :
  map_Forall (fun _ values => values <> []) m ->
  map_Forall (fun _ values => values <> []) (url.parseQuery fuel m query).
Proof.
  revert m query. induction fuel as [|fuel IH]; intros m query Hm; [exact Hm|].
  cbn [url.parseQuery].
  destruct (String.eqb query ""); [exact Hm|].
  destruct (strings.Cut query "&") as [[key rest] found].
  destruct (strings.Contains key ";"); [by apply IH|].
  destruct (String.eqb key ""); [by apply IH|].
  destruct (strings.Cut key "=") as [[k val] ?].
  destruct (url.QueryUnescape k) as [k'|]; [|by apply IH].
  destruct (url.QueryUnescape val) as [val'|]; [|by apply IH].
  apply IH. unfold url.Add. apply map_Forall_insert_2; [|exact Hm].
  by destruct (m !!! k').
Qed.

Lemma Query_no_empty_values (u : url.URL) :
  map_Forall (fun _ values => values <> []) (url.Query u).
Proof. apply parseQuery_no_empty_values, map_Forall_empty. Qed.

End more_query_facts.

(** X19.  Parsing undoes encoding: a query written by [Encode] from
    values in which no name has an empty list is read back by [Query] as
    the same values, every name and value unescaped to what it was and the
    values of every name in their order. *)
Theorem Query_reads_back_Encode :
  forall (v : url.Values) (path rawPath : string),
    map_Forall (fun _ values => values <> []) v ->
    url.Query (url.mkURL path rawPath (url.Encode v)) = v.
Proof.
  intros v path rawPath Hv. unfold url.Query. cbn [url.RawQuery].
  apply parseQuery_Encode; [exact Hv|]. lia.
Qed.

Lemma Query_reads_back_Encode_witness :
  url.Query
    (url.mkURL "/" ""
       (url.Encode (url.Add (url.Add (url.Add ∅ "q" "a b&c") "q" "100%") "Action" "List")))
  = url.Add (url.Add (url.Add ∅ "q" "a b&c") "q" "100%") "Action" "List".
Proof.
  apply (Query_reads_back_Encode
           (url.Add (url.Add (url.Add ∅ "q" "a b&c") "q" "100%") "Action" "List") "/" "").
  apply (bool_decide_unpack _). vm_compute. exact I.
Defined.

(** X20.  The query segment is a fixed point: a request whose raw query is
    replaced by the query segment of its canonical request has the same
    parameters, and the same canonical request and the same signature in
    every order the header map may be visited in. *)
Theorem canonical_query_is_stable :
  forall (unicodeLower : string -> string) (request : http.Request) (payload : string)
         (timestamp : time.Time) (region service key : string)
         (visitedNames : list string) (visitedEntries : list (string * list string)),
    let canonical := withRawQuery request (url.Encode (url.Query (http.URL request))) in
    url.Query (http.URL canonical) = url.Query (http.URL request)
    /\ url.Encode (url.Query (http.URL canonical)) = url.Encode (url.Query (http.URL request))
    /\ canonicalString_visiting unicodeLower visitedNames visitedEntries canonical payload
       = canonicalString_visiting unicodeLower visitedNames visitedEntries request payload
    /\ AWSSignature_visiting unicodeLower visitedNames visitedEntries canonical payload
         timestamp region service key
       = AWSSignature_visiting unicodeLower visitedNames visitedEntries request payload
           timestamp region service key.
Proof.
  intros ul request payload timestamp region service key visitedNames visitedEntries canonical.
  assert (Hquery : url.Query (http.URL canonical) = url.Query (http.URL request)).
  { subst canonical. unfold withRawQuery. cbn [http.URL].
    unfold url.Query at 1. cbn [url.RawQuery].
    apply parseQuery_Encode; [apply Query_no_empty_values|lia]. }
  assert (Hcanonical : canonicalString_visiting ul visitedNames visitedEntries canonical payload
                       = canonicalString_visiting ul visitedNames visitedEntries
                           request payload).
  { rewrite !canonicalString_visiting_layout, Hquery. reflexivity. }
  split; [exact Hquery|]. split; [by rewrite Hquery|]. split; [exact Hcanonical|].
  unfold AWSSignature_visiting. by rewrite Hcanonical.
Qed.

(** ** The path segment, the timestamps and the scope *)

Section more_path_facts.

Lemma unescape_escape_path_byte (c : ascii) (t : string) :
  url.unescape (url.escape (String c "") url.encodePath +:+ t) url.encodePath
  = (t' ← url.unescape t url.encodePath; Some (String c t')).
Proof. destruct c as [[] [] [] [] [] [] [] []]; reflexivity. Qed.

Lemma unescape_escape_path (s : string) :
  url.unescape (url.escape s url.encodePath) url.encodePath = Some s.
Proof.
  induction s as [|c s IH]; [reflexivity|].
  rewrite escape_cons, unescape_escape_path_byte, IH. reflexivity.
Qed.

Lemma digits_digits (fuel : nat) (u : Z) (acc : string) :
  string_forallb isDigit09 acc = true ->
  string_forallb isDigit09 (time.digits fuel u acc) = true.
Proof.
  revert u acc. induction fuel as [|fuel IH]; intros u acc Hacc; [exact Hacc|].
  cbn [time.digits].
  assert (Hacc' : string_forallb isDigit09
                    (String (ascii_of_N (48 + Z.to_N (u mod 10))) acc) = true).
  { cbn [string_forallb]. by rewrite digit_char, Hacc. }
  destruct (u <? 10)%Z; [exact Hacc'|]. by apply IH.
Qed.

Lemma string_of_zeros_digits (n : nat) :
  string_forallb isDigit09 (String.string_of_list_ascii (replicate n "0"%char)) = true.
Proof. induction n as [|n IH]; [reflexivity|]. cbn. exact IH. Qed.

(** A field that is not negative is written with decimal digits only. *)
Lemma spec_field_digits (x : Z) (width : nat) :
  (0 <= x)%Z -> string_forallb isDigit09 (spec_field x width) = true.
Proof.
  intros Hx. unfold spec_field, time.appendInt.
  replace (x <? 0)%Z with false by (symmetry; apply Z.ltb_ge; lia).
  rewrite !string_forallb_app, string_of_zeros_digits.
  unfold time.decimal. by rewrite digits_digits.
Qed.

End more_path_facts.

(** X21.  The path segment of the canonical request is a faithful
    encoding of the path of the URL: unescaping it gives the path back,
    whichever of the raw path, the escaped path and "*" [EscapedPath]
    chose. *)
Theorem path_segment_decodes_to_Path :
  forall u : url.URL, url.unescape (url.EscapedPath u) url.encodePath = Some (url.Path u).
Proof.
  intros u. unfold url.EscapedPath.
  assert (Hrest : url.unescape
                    (if String.eqb (url.Path u) "*" then "*"
                     else url.escape (url.Path u) url.encodePath) url.encodePath
                  = Some (url.Path u)).
  { destruct (String.eqb_spec (url.Path u) "*") as [->|_];
      [reflexivity|apply unescape_escape_path]. }
  destruct (negb (String.eqb (url.RawPath u) "")); cbn [andb]; [|exact Hrest].
  destruct (url.validEncoded (url.RawPath u) url.encodePath); cbn [andb]; [|exact Hrest].
  destruct (bool_decide_reflect (url.unescape (url.RawPath u) url.encodePath = Some (url.Path u)))
    as [Heq|_]; [exact Heq|exact Hrest].
Qed.

(** X22.  For an instant of the calendar (a year of at most four digits)
    the three renderings of the timestamp have a fixed width: the date of
    the scope is 8 decimal digits, the timestamp of the string to sign has
    16 characters, and the date header [Sign] attaches has 20. *)
Theorem timestamp_renderings_have_fixed_width :
  forall t : time.Time,
    (0 <= time.Year t <= 9999)%Z -> (1 <= time.Month t <= 12)%Z -> (1 <= time.Day t <= 31)%Z ->
    (0 <= time.Hour t <= 23)%Z -> (0 <= time.Minute t <= 59)%Z ->
    (0 <= time.Second t <= 59)%Z ->
    String.length (time.Format t dateFormat) = 8
    /\ string_forallb isDigit09 (time.Format t dateFormat) = true
    /\ String.length (time.Format t dateTimeFormat) = 16
    /\ String.length (time.Format t time.RFC3339) = 20.
Proof.
  intros t HY HM HD Hh Hm Hs.
  destruct (length_spec_compact t) as [Hdate Hcompact]; try lia.
  rewrite Format_dateFormat, Format_dateTimeFormat, Format_RFC3339.
  split; [exact Hdate|]. split; [|split; [exact Hcompact|]].
  - unfold spec_date. rewrite !string_forallb_app, !spec_field_digits by lia. reflexivity.
  - rewrite !string_length_app.
    rewrite (length_spec_field (time.Year t) 4), !(length_spec_field _ 2)
      by (change (10 ^ Z.of_nat 4)%Z with 10000%Z; change (10 ^ Z.of_nat 2)%Z with 100%Z; lia).
    reflexivity.
Qed.

Lemma timestamp_renderings_have_fixed_width_witness :
  String.length (time.Format testTime dateFormat) = 8
  /\ string_forallb isDigit09 (time.Format testTime dateFormat) = true
  /\ String.length (time.Format testTime dateTimeFormat) = 16
  /\ String.length (time.Format testTime time.RFC3339) = 20.
Proof. apply (timestamp_renderings_have_fixed_width testTime); cbn; lia. Defined.

(** X23.  Nothing separates the fields of the credential scope but the
    "/" between them, and no field is checked or escaped: a "/" in the
    region or in the service moves the boundary, so that two different
    pairs of region and service give the same scope and the same string to
    sign. *)
Theorem credentialScope_does_not_escape_fields :
  forall (timestamp : time.Time) (a b c hashed : string),
    credentialScope timestamp (a +:+ "/" +:+ b) c = credentialScope timestamp a (b +:+ "/" +:+ c)
    /\ stringToSign timestamp (a +:+ "/" +:+ b) c hashed
       = stringToSign timestamp a (b +:+ "/" +:+ c) hashed.
Proof.
  intros timestamp a b c hashed.
  assert (Hscope : credentialScope timestamp (a +:+ "/" +:+ b) c
                   = credentialScope timestamp a (b +:+ "/" +:+ c)).
  { rewrite !credentialScope_Join. cbn [strings.Join]. by rewrite !string_app_assoc. }
  split; [exact Hscope|]. by rewrite !stringToSign_layout, Hscope.
Qed.

(** ** Header keys and the date [Sign] attaches *)

Section more_key_facts.
Variable unicodeLower : string -> string.

Lemma canonicalize_lower_byte_check (upper : bool) (c : ascii) :
  implb (textproto.validHeaderFieldByte c)
    ((N_of_ascii c <? 128)%N
     && textproto.validHeaderFieldByte (if isUpperAZ c then ascii_add c 32 else c)
     && Ascii.eqb
          (let c' := if isUpperAZ c then ascii_add c 32 else c in
           if upper && isLowerAZ c' then ascii_sub c' 32
           else if negb upper && isUpperAZ c' then ascii_add c' 32 else c')
          (if upper && isLowerAZ c then ascii_sub c 32
           else if negb upper && isUpperAZ c then ascii_add c 32 else c))
  = true.
Proof. destruct upper; destruct c as [[] [] [] [] [] [] [] []]; vm_compute; reflexivity. Qed.

Lemma canonicalize_lower_byte (upper : bool) (c : ascii) :
  textproto.validHeaderFieldByte c = true ->
  (N_of_ascii c <? 128)%N = true
  /\ textproto.validHeaderFieldByte (if isUpperAZ c then ascii_add c 32 else c) = true
  /\ (let c' := if isUpperAZ c then ascii_add c 32 else c in
      if upper && isLowerAZ c' then ascii_sub c' 32
      else if negb upper && isUpperAZ c' then ascii_add c' 32 else c')
     = (if upper && isLowerAZ c then ascii_sub c 32
        else if negb upper && isUpperAZ c then ascii_add c 32 else c).
Proof.
  intros Hc. pose proof (canonicalize_lower_byte_check upper c) as H.
  rewrite Hc in H. cbn [implb] in H.
  apply andb_true_iff in H as [H H3]. apply andb_true_iff in H as [H1 H2].
  split; [exact H1|]. split; [exact H2|]. by apply Ascii.eqb_eq.
Qed.

Lemma token_is_ascii (s : string) :
  string_forallb textproto.validHeaderFieldByte s = true ->
  string_forallb (fun c => (N_of_ascii c <? 128)%N) s = true.
Proof.
  apply string_forallb_impl. intros c Hc.
  by destruct (canonicalize_lower_byte true c Hc) as [H _].
Qed.

Lemma token_lower_is_token (s : string) :
  string_forallb textproto.validHeaderFieldByte s = true ->
  string_forallb textproto.validHeaderFieldByte
    (string_map (fun c => if isUpperAZ c then ascii_add c 32 else c) s) = true.
Proof.
  induction s as [|c s IH]; [reflexivity|].
  cbn [string_forallb string_map]. intros H. apply andb_true_iff in H as [Hc Hs].
  destruct (canonicalize_lower_byte true c Hc) as (_ & Hc' & _).
  by rewrite Hc', (IH Hs).
Qed.

Lemma canonicalize_lower (upper : bool) (s : string) :
  string_forallb textproto.validHeaderFieldByte s = true ->
  textproto.canonicalize upper
    (string_map (fun c => if isUpperAZ c then ascii_add c 32 else c) s)
  = textproto.canonicalize upper s.
Proof.
  revert upper. induction s as [|c s IH]; intros upper H; [reflexivity|].
  cbn [string_forallb] in H. apply andb_true_iff in H as [Hc Hs].
  cbn [string_map textproto.canonicalize].
  destruct (canonicalize_lower_byte upper c Hc) as (_ & _ & Heq).
  cbv zeta in Heq. rewrite Heq, (IH _ Hs). reflexivity.
Qed.

(** The canonical form of a header key does not depend on the case of its
    letters. *)
Lemma CanonicalMIMEHeaderKey_ToLower (key : string) :
  string_forallb textproto.validHeaderFieldByte key = true ->
  textproto.CanonicalMIMEHeaderKey (strings.ToLower unicodeLower key)
  = textproto.CanonicalMIMEHeaderKey key.
Proof.
  intros Hkey. unfold strings.ToLower, textproto.CanonicalMIMEHeaderKey.
  rewrite (token_is_ascii _ Hkey), (token_lower_is_token _ Hkey), Hkey.
  by apply canonicalize_lower.
Qed.


End more_key_facts.

(** X24.  Headers whose keys are canonical tokens, as [Header.Add] and
    [Header.Set] store them, never collide: no two such keys lower-case to
    one name.  For such headers the order in which [canonicalHeaders]
    visits the map does not matter. *)
Theorem canonical_keys_do_not_collide :
  forall (unicodeLower : string -> string) (header : textproto.MIMEHeader)
         (visited : list (string * list string)),
    Forall (fun key => string_forallb textproto.validHeaderFieldByte key = true
                       /\ textproto.CanonicalMIMEHeaderKey key = key)
           (map_to_list header).*1 ->
    visited ≡ₚ map_to_list header ->
    NoDup (strings.ToLower unicodeLower <$> (map_to_list header).*1)
    /\ lowerCaseHeaders_of unicodeLower visited
       = lowerCaseHeaders_of unicodeLower (map_to_list header).
Proof.
  intros ul header visited Hkeys Hperm.
  assert (Hnd : NoDup (strings.ToLower ul <$> (map_to_list header).*1)).
  { apply NoDup_fmap_2_strong; [|apply NoDup_fst_map_to_list].
    intros k1 k2 Hk1 Hk2 Heq.
    rewrite Forall_forall in Hkeys.
    destruct (Hkeys _ Hk1) as [Hv1 Hc1]. destruct (Hkeys _ Hk2) as [Hv2 Hc2].
    rewrite <- Hc1, <- Hc2.
    rewrite <- (CanonicalMIMEHeaderKey_ToLower ul k1 Hv1).
    rewrite <- (CanonicalMIMEHeaderKey_ToLower ul k2 Hv2).
    by rewrite Heq. }
  split; [exact Hnd|]. by apply lowerCaseHeaders_any_order.
Qed.

Lemma canonical_keys_do_not_collide_witness :
  let header : textproto.MIMEHeader :=
    textproto.Add (textproto.Add ∅ "content-type" "text/plain") "X-AMZ-DATE" "20150830T123600Z" in
  NoDup (strings.ToLower noUnicode <$> (map_to_list header).*1)
  /\ lowerCaseHeaders_of noUnicode (reverse (map_to_list header))
     = lowerCaseHeaders_of noUnicode (map_to_list header).
Proof.
  intros header.
  apply (canonical_keys_do_not_collide noUnicode header (reverse (map_to_list header))).
  - apply (bool_decide_unpack _). vm_compute. exact I.
  - apply reverse_Permutation.
Defined.


